(** * WordFilter: the ingestion and word-frequency pipeline

    A shallow embedding of [source/modules/WordFilter.py] and the
    properties of its chunk store, retrying executor, boundary merge,
    tokenizer and frequency aggregation. *)

From Stdlib Require Import ZArith NArith List String Ascii Bool Lia DecimalString.
From stdpp Require Import base option list gmap fin_maps.

Local Open Scope N_scope.

(** ** Python text

    A Python [str] is a sequence of Unicode code points. *)

Abbreviation pystr := (list N).

(** Text literals of the development are written as Rocq strings. *)
Definition py (s : string) : pystr :=
  map N_of_ascii (list_ascii_of_string s).

(** [Py_UNICODE_ISSPACE]: the one white space test behind [str.isspace],
    [str.split()] without separator and the [\s] class of [re]. *)
Definition isspace (c : N) : bool :=
  ((9 <=? c) && (c <=? 13)) || ((28 <=? c) && (c <=? 32))
  || (c =? 133) || (c =? 160) || (c =? 5760)
  || ((8192 <=? c) && (c <=? 8202))
  || (c =? 8232) || (c =? 8233) || (c =? 8239) || (c =? 8287)
  || (c =? 12288).

Definition is_az (c : N) : bool := (97 <=? c) && (c <=? 122).
Definition is_AZ (c : N) : bool := (65 <=? c) && (c <=? 90).

(** The interpreter's Unicode tables beyond ASCII are not part of the
    repository: which code points are letters, and the lower-case mapping
    of a code point (one to three code points). *)
Record unicode_data := {
  ud_isalpha : N -> bool;
  ud_lower : N -> pystr
}.

(** A table set that knows nothing beyond ASCII, for the examples, whose
    text is plain ASCII. *)
Definition ascii_data : unicode_data :=
  {| ud_isalpha := fun _ => false; ud_lower := fun c => [c] |}.

(** ** Failures *)

Inductive exn :=
| IndexError
| ValueError (msg : pystr)
| OperationalError (msg : pystr)
| PyException (msg : pystr).

Inductive outcome (A : Type) :=
| Return (a : A)
| Raise (e : exn).
Arguments Return {A} a.
Arguments Raise {A} e.

#[global] Instance outcome_ret : MRet outcome := fun A a => Return a.
#[global] Instance outcome_bind : MBind outcome := fun A B f m =>
  match m with
  | Return a => f a
  | Raise e => Raise e
  end.

(** [l[-1]] and [l[0]] *)
Definition item_last {A} (l : list A) : outcome A :=
  match last l with
  | Some x => Return x
  | None => Raise IndexError
  end.

Definition item_first {A} (l : list A) : outcome A :=
  match l with
  | x :: _ => Return x
  | [] => Raise IndexError
  end.

(** Truth value of a [str] and of a [list]. *)
Definition truthy_list {A} (l : list A) : bool :=
  match l with
  | [] => false
  | _ => true
  end.

Definition truthy (s : pystr) : bool :=
  match s with
  | [] => false
  | _ => true
  end.

(** ** String operations *)

(** [s.split()]: the maximal runs of non white space; [cur] is the run
    being read. *)
Fixpoint split_from (cur : pystr) (s : pystr) : list pystr :=
  match s with
  | [] => if truthy cur then [cur] else []
  | c :: s' =>
      if isspace c
      then (if truthy cur then cur :: split_from [] s' else split_from [] s')
      else split_from (cur ++ [c]) s'
  end.

Definition split (s : pystr) : list pystr := split_from [] s.

(** The cut at the last occurrence of [sep], when there is one. *)
Fixpoint rcut (sep : N) (s : pystr) : option (pystr * pystr) :=
  match s with
  | [] => None
  | c :: s' =>
      match rcut sep s' with
      | Some (a, b) => Some (c :: a, b)
      | None => if c =? sep then Some ([], s') else None
      end
  end.

(** [s.rsplit(sep, 1)] for a one-character separator. *)
Definition rsplit1 (sep : N) (s : pystr) : list pystr :=
  match rcut sep s with
  | Some (a, b) => [a; b]
  | None => [s]
  end.

Definition SPACE : N := 32.

(** [re.sub(p, repl, text)] for a pattern [p] that is one character class:
    every character of the class is replaced by [repl]. *)
Definition re_sub_class (cls : N -> bool) (repl : pystr) (text : pystr) : pystr :=
  flat_map (fun c => if cls c then repl else [c]) text.

(** The class [[^a-zA-Z\s]]. *)
Definition not_letter_or_space (c : N) : bool :=
  negb (is_az c || is_AZ c || isspace c).

(** [needle in hay] *)
Fixpoint starts_with (needle hay : pystr) : bool :=
  match needle, hay with
  | [], _ => true
  | _ :: _, [] => false
  | a :: n', b :: h' => (a =? b) && starts_with n' h'
  end.

Fixpoint contains (needle hay : pystr) : bool :=
  starts_with needle hay ||
  match hay with
  | [] => false
  | _ :: h' => contains needle h'
  end.

(** [str(n)] for an [int]. *)
Definition str_of_int (n : Z) : pystr :=
  py (NilZero.string_of_int (Z.to_int n)).

Section Unicode.
Variable U : unicode_data.

Definition isalpha (c : N) : bool :=
  if c <? 128 then is_az c || is_AZ c else ud_isalpha U c.

(** [str.lower] of one code point. White space has no case. *)
Definition lower_char (c : N) : pystr :=
  if is_AZ c then [c + 32]
  else if (c <? 128) || isspace c then [c]
  else ud_lower U c.

Definition lower (s : pystr) : pystr := flat_map lower_char s.

(** *** merge_split_words *)

(** One turn of the [for chunk in chunks] loop. *)
Definition merge_step (merged : list pystr) (buffer : pystr) (chunk : pystr)
  : outcome (list pystr * pystr) :=
  let '(chunk, buffer) :=
    if truthy buffer then (buffer ++ chunk, []) else (chunk, buffer) in
  c ← item_last chunk;
  if negb (isspace c) && negb (isalpha c) then
    buffer ← item_last (split chunk);
    chunk ← item_first (rsplit1 SPACE chunk);
    mret (merged ++ [chunk], buffer)
  else mret (merged ++ [chunk], buffer).

Fixpoint merge_loop (chunks : list pystr) (merged : list pystr) (buffer : pystr)
  : outcome (list pystr * pystr) :=
  match chunks with
  | [] => mret (merged, buffer)
  | chunk :: rest =>
      '(merged, buffer) ← merge_step merged buffer chunk;
      merge_loop rest merged buffer
  end.

Definition merge_split_words (chunks : list pystr) : outcome (list pystr) :=
  '(merged, buffer) ← merge_loop chunks [] [];
  mret (if truthy buffer then merged ++ [buffer] else merged).

(** *** clean_text *)

Definition clean_text (text : pystr) : list pystr :=
  let text := lower (re_sub_class not_letter_or_space [] text) in
  split text.

(** [word_frequencies[word] += 1] on a [defaultdict(int)]. *)
Definition count_word (wf : gmap pystr Z) (word : pystr) : gmap pystr Z :=
  <[word := (default 0 (wf !! word) + 1)%Z]> wf.

Definition count_chunk (wf : gmap pystr Z) (chunk : pystr) : gmap pystr Z :=
  foldl count_word wf (clean_text chunk).

(** The body of [for chunk_batch in ...]. *)
Definition count_batch (wf : gmap pystr Z) (chunk_batch : list pystr)
  : outcome (gmap pystr Z) :=
  merged_chunks ← merge_split_words chunk_batch;
  mret (foldl count_chunk wf merged_chunks).

Fixpoint count_batches (wf : gmap pystr Z) (batches : list (list pystr))
  : outcome (gmap pystr Z) :=
  match batches with
  | [] => mret wf
  | b :: rest => wf ← count_batch wf b; count_batches wf rest
  end.

End Unicode.

(** ** The store

    Table [pdf_chunks] is kept as the list of its rows in ascending [id]:
    [id] is [INTEGER PRIMARY KEY AUTOINCREMENT], so every inserted row
    gets the largest [id] and goes to the end, and [ORDER BY id] reads the
    list front to back. Table [word_frequencies] has primary key [word];
    its [frequency] is read as an integer without bound. [None] is a
    table that does not exist. *)

Record chunk_row := {
  file_name : pystr;
  chunk_index : Z;
  chunk_text : pystr
}.

Record database := {
  pdf_chunks : option (list chunk_row);
  word_frequencies : option (gmap pystr Z)
}.

(** The store together with what surrounds it during a run: whether the
    coming write attempts find the database locked by another writer
    ([true] is a refusal; past the end of the list nobody holds the
    lock), and the seconds spent sleeping. *)
Record world := {
  db : database;
  contention : list bool;
  slept : Z
}.

Definition set_db (w : world) (d : database) : world :=
  {| db := d; contention := contention w; slept := slept w |}.

Definition sleep_world (delay : Z) (w : world) : world :=
  {| db := db w; contention := contention w; slept := (slept w + delay)%Z |}.

(** [DROP TABLE IF EXISTS] and [CREATE TABLE IF NOT EXISTS] *)
Definition drop_pdf_chunks (d : database) : database :=
  {| pdf_chunks := None; word_frequencies := word_frequencies d |}.

Definition drop_word_frequencies (d : database) : database :=
  {| pdf_chunks := pdf_chunks d; word_frequencies := None |}.

Definition create_pdf_chunks (d : database) : database :=
  {| pdf_chunks := Some (default [] (pdf_chunks d));
     word_frequencies := word_frequencies d |}.

Definition create_word_frequencies (d : database) : database :=
  {| pdf_chunks := pdf_chunks d;
     word_frequencies := Some (default ∅ (word_frequencies d)) |}.

Definition setup_database (reset_db : bool) (d : database) : database :=
  let d := if reset_db
           then drop_word_frequencies (drop_pdf_chunks d)
           else d in
  create_word_frequencies (create_pdf_chunks d).

(** ** execute_with_retry *)

Inductive event :=
| EvCall
| EvSleep (delay : Z).

Definition is_locked (e : exn) : bool :=
  match e with
  | OperationalError msg => contains (py "locked") msg
  | _ => false
  end.

Definition retries_exhausted (retries : Z) : exn :=
  PyException (py "Failed to execute after " ++ str_of_int retries ++ py " retries").

Section Retry.
Context {St V : Type}.
(** The operation, on the state it works on, and what a pause of the
    given seconds does to that state. *)
Variable func : St -> outcome V * St.
Variable sleep : Z -> St -> St.

(** [for attempt in range(retries)] with [attempts] turns left; the
    result, the state, and the calls and pauses made. [time.sleep]
    refuses a negative length. *)
Fixpoint retry_loop (attempts : nat) (retries delay : Z) (s : St)
  : outcome V * St * list event :=
  match attempts with
  | O => (Raise (retries_exhausted retries), s, [])
  | S attempts =>
      let '(r, s) := func s in
      match r with
      | Return v => (Return v, s, [EvCall])
      | Raise (OperationalError msg) =>
          if contains (py "locked") msg then
            if (delay <? 0)%Z
            then (Raise (ValueError (py "sleep length must be non-negative")),
                  s, [EvCall])
            else
              let '(r, s, log) := retry_loop attempts retries delay (sleep delay s) in
              (r, s, EvCall :: EvSleep delay :: log)
          else (Raise (OperationalError msg), s, [EvCall])
      | Raise e => (Raise e, s, [EvCall])
      end
  end.

Definition execute_with_retry (retries delay : Z) (s : St)
  : outcome V * St * list event :=
  retry_loop (Z.to_nat retries) retries delay s.

(** [k] consecutive attempts from [s] all fail on the lock, each
    followed by the pause, and leave [s']. *)
Inductive locked_run (delay : Z) : nat -> St -> St -> Prop :=
| locked_run_O s : locked_run delay O s s
| locked_run_S k s e s1 s' :
    func s = (Raise e, s1) ->
    is_locked e = true ->
    locked_run delay k (sleep delay s1) s' ->
    locked_run delay (S k) s s'.

End Retry.

(** The log of [k] refused attempts. *)
Fixpoint refused_log (k : nat) (delay : Z) : list event :=
  match k with
  | O => []
  | S k => EvCall :: EvSleep delay :: refused_log k delay
  end.

(** ** store_chunks_in_db *)

(** [posixpath.basename] *)
Definition basename (p : pystr) : pystr :=
  match rcut 47 p with
  | Some (_, b) => b
  | None => p
  end.

Definition enumerate {A} (l : list A) : list (Z * A) :=
  imap (fun i x => (Z.of_nat i, x)) l.

Definition insert_chunk (name : pystr) (rows : list chunk_row) (ic : Z * pystr)
  : list chunk_row :=
  rows ++ [{| file_name := name; chunk_index := ic.1; chunk_text := ic.2 |}].

(** The transaction [_store]. With no chunk no statement runs. The first
    [INSERT] fails when the table is missing, and is refused when another
    writer holds the lock; a failed transaction is never committed, so it
    leaves the tables as they were. *)
Definition _store (file_name : pystr) (chunks : list pystr) (w : world)
  : outcome unit * world :=
  match chunks with
  | [] => (Return tt, w)
  | _ =>
      match pdf_chunks (db w) with
      | None => (Raise (OperationalError (py "no such table: pdf_chunks")), w)
      | Some rows =>
          match contention w with
          | true :: rest =>
              (Raise (OperationalError (py "database is locked")),
               {| db := db w; contention := rest; slept := slept w |})
          | rest =>
              let rows := foldl (insert_chunk (basename file_name)) rows
                                (enumerate chunks) in
              (Return tt,
               {| db := {| pdf_chunks := Some rows;
                           word_frequencies := word_frequencies (db w) |};
                  contention := tail rest; slept := slept w |})
          end
      end
  end.

Definition store_chunks_in_db (file_name : pystr) (chunks : list pystr) (w : world)
  : outcome unit * world :=
  (execute_with_retry (_store file_name chunks) sleep_world 999 10 w).1.

(** How many of the coming write attempts are refused in a row. *)
Fixpoint leading_busy (l : list bool) : nat :=
  match l with
  | true :: l => S (leading_busy l)
  | _ => O
  end.

(** ** Reading the chunks back *)

(** [range(start, stop, step)] *)
Definition py_range (start stop step : Z) : outcome (list Z) :=
  if (step =? 0)%Z then Raise (ValueError (py "range() arg 3 must not be zero"))
  else
    let n := if (0 <? step)%Z
             then (if (start <? stop)%Z then (stop - start - 1) / step + 1 else 0)%Z
             else (if (stop <? start)%Z then (start - stop - 1) / (- step) + 1 else 0)%Z in
    Return (map (fun i => (start + Z.of_nat i * step)%Z) (seq 0 (Z.to_nat n))).

(** [LIMIT limit OFFSET offset] over rows in order; a negative limit is
    no limit. *)
Definition limit_offset {A} (limit offset : Z) (l : list A) : list A :=
  let l := drop (Z.to_nat offset) l in
  if (limit <? 0)%Z then l else take (Z.to_nat limit) l.

(** The batches the generator yields. The table does not change while
    they are read, so they are computed at once. *)
Definition retrieve_chunks_in_batches (d : database) (batch_size : Z)
  : outcome (list (list pystr)) :=
  match pdf_chunks d with
  | None => Raise (OperationalError (py "no such table: pdf_chunks"))
  | Some rows =>
      let total_chunks := Z.of_nat (length rows) in
      offsets ← py_range 0 total_chunks batch_size;
      mret (map (fun offset => limit_offset batch_size offset (map chunk_text rows))
                offsets)
  end.

(** ** Storing the frequencies *)

(** [INSERT ... ON CONFLICT(word) DO UPDATE SET frequency = frequency + ?] *)
Definition upsert (word : pystr) (freq : Z) (table : gmap pystr Z) : gmap pystr Z :=
  match table !! word with
  | None => <[word := freq]> table
  | Some frequency => <[word := (frequency + freq)%Z]> table
  end.

(** [for word, freq in word_frequencies.items()] *)
Definition upsert_frequencies (counts : gmap pystr Z) (table : gmap pystr Z)
  : gmap pystr Z :=
  map_fold upsert table counts.

Definition store_frequencies (counts : gmap pystr Z) (d : database) : outcome database :=
  if decide (counts = ∅) then Return d
  else
    match word_frequencies d with
    | None => Raise (OperationalError (py "no such table: word_frequencies"))
    | Some table =>
        Return {| pdf_chunks := pdf_chunks d;
                  word_frequencies := Some (upsert_frequencies counts table) |}
    end.

Section Pipeline.
Variable U : unicode_data.
(** The extractor and the splitter, which the repository takes from
    PyMuPDF and LangChain. *)
Variable extract_text_from_pdf : pystr -> pystr.
Variable split_text_into_chunks : pystr -> Z -> list pystr.

Definition process_chunks_in_batches (d : database) (batch_size : Z)
  : outcome (gmap pystr Z * database) :=
  batches ← retrieve_chunks_in_batches d batch_size;
  counts ← count_batches U ∅ batches;
  d ← store_frequencies counts d;
  mret (counts, d).

(** Every failure inside is caught and logged; the task returns. *)
Definition extract_split_and_store_pdf (pdf_file : pystr) (chunk_size : Z) (w : world)
  : world :=
  let text := extract_text_from_pdf pdf_file in
  if negb (truthy text) then w
  else
    let chunks := split_text_into_chunks text chunk_size in
    if negb (truthy_list chunks) then w
    else (store_chunks_in_db pdf_file chunks w).2.

(** The pool's tasks write through one database, which serves one
    writer at a time: [schedule] is the order in which the tasks, one
    per file, get their turn. *)
Definition process_files_in_parallel (schedule : list pystr) (reset_db : bool)
    (chunk_size : Z) (w : world) : world :=
  let w := set_db w (setup_database reset_db (db w)) in
  foldl (fun w pdf_file => extract_split_and_store_pdf pdf_file chunk_size w)
        w schedule.

(** [update_database] from the file list on. *)
Definition update_database (schedule : list pystr) (reset_db : bool) (chunk_size : Z)
    (w : world) : outcome (gmap pystr Z) * world :=
  let w := set_db w (setup_database reset_db (db w)) in
  let w := process_files_in_parallel schedule reset_db chunk_size w in
  match process_chunks_in_batches (db w) 1000 with
  | Return (counts, d) => (Return counts, set_db w d)
  | Raise e => (Raise e, w)
  end.

End Pipeline.

(** ** The tokenizer as the specification words it *)

Definition keep_char (c : N) : bool := is_az c || is_AZ c || isspace c.

Definition ascii_lower (c : N) : N := if is_AZ c then c + 32 else c.

(** Delete what is neither a letter a-z, A-Z nor white space; put in lower
    case; cut at white space. *)
Definition tokenize_spec (text : pystr) : list pystr :=
  split (map ascii_lower (List.filter keep_char text)).

Definition lower_word (w : pystr) : Prop :=
  w ≠ [] ∧ Forall (fun c => is_az c = true) w.

(** The rows that [_store] writes for [chunks], numbered from [first]. *)
Definition chunk_rows (name : pystr) (first : nat) (chunks : list pystr)
  : list chunk_row :=
  imap (fun i chunk =>
          {| file_name := name; chunk_index := Z.of_nat (first + i);
             chunk_text := chunk |}) chunks.

(** ** Reading the frequencies back *)

(** [SELECT word, frequency FROM word_frequencies]: the rows of the
    table, one per word, in the order the store keeps them. *)
Definition retrive_word_frequencies (d : database) : outcome (list (pystr * Z)) :=
  match word_frequencies d with
  | None => Raise (OperationalError (py "no such table: word_frequencies"))
  | Some table => Return (map_to_list table)
  end.

(** ** updateLog: the log file and the message table *)

(** [s.strip()] *)
Fixpoint lstrip (s : pystr) : pystr :=
  match s with
  | [] => []
  | c :: s' => if isspace c then lstrip s' else s
  end.

Definition rstrip (s : pystr) : pystr := rev (lstrip (rev s)).

Definition strip (s : pystr) : pystr := rstrip (lstrip s).

(** [s.split(sep)] for a non-empty [sep]: the pieces between the
    occurrences of [sep] found from the left, one after the other;
    [skip] characters of an occurrence are still to be passed and [cur]
    is the piece being read. *)
Fixpoint split_sep_from (sep : pystr) (skip : nat) (cur : pystr) (s : pystr)
  : list pystr :=
  match s with
  | [] => [cur]
  | c :: s' =>
      match skip with
      | S k => split_sep_from sep k cur s'
      | O =>
          if starts_with sep s
          then cur :: split_sep_from sep (length sep - 1) [] s'
          else split_sep_from sep 0 (cur ++ [c]) s'
      end
  end.

Definition split_sep (sep : pystr) (s : pystr) : list pystr :=
  split_sep_from sep 0 [] s.

(** [a, b, c = fields] *)
Definition unpack3 (fields : list pystr) : outcome (pystr * pystr * pystr) :=
  match fields with
  | [a; b; c] => Return (a, b, c)
  | _ :: _ :: _ :: _ :: _ =>
      Raise (ValueError (py "too many values to unpack (expected 3)"))
  | _ =>
      Raise (ValueError (py "not enough values to unpack (expected 3, got "
                         ++ str_of_int (Z.of_nat (length fields)) ++ py ")"))
  end.

Record message_row := {
  timestamp : pystr;
  message_type : pystr;
  message : pystr
}.

(** The [messages] table of the log database ([None] when it does not
    exist) and the lines of the log file. *)
Record log_store := {
  messages : option (list message_row);
  log_file : list pystr
}.

Definition SEPARATOR : pystr := py " - ".

(** The loop over the lines of the log file; [rows] are the rows of the
    open transaction. *)
Fixpoint insert_lines (lines : list pystr) (rows : list message_row)
  : outcome (list message_row) :=
  match lines with
  | [] => mret rows
  | line :: rest =>
      '(timestamp, message_type, message) ← unpack3 (split_sep SEPARATOR (strip line));
      insert_lines rest
        (rows ++ [{| timestamp := timestamp; message_type := message_type;
                     message := message |}])
  end.

Definition finished_row (now : pystr) : message_row :=
  {| timestamp := now; message_type := py "PROGRESS";
     message := py "FINISHED UPDATING LOG FILE" |}.

(** [store_log_file_to_database], [now] being what [getCurrentTime]
    returns. The table is created outside any transaction; the rows are
    committed at the end, and a failure before that leaves them out; the
    file is emptied last. *)
Definition store_log_file_to_database (now : pystr) (s : log_store)
  : outcome unit * log_store :=
  let table := match messages s with Some rows => rows | None => [] end in
  match insert_lines (log_file s) table with
  | Return rows =>
      (Return tt, {| messages := Some (rows ++ [finished_row now]); log_file := [] |})
  | Raise e => (Raise e, {| messages := Some table; log_file := log_file s |})
  end.



(** ** Measures used in the statements *)

(** How often [word] is among [words]. *)
Definition occurrences (word : pystr) (words : list pystr) : Z :=
  Z.of_nat (length (List.filter (fun w => bool_decide (w = word)) words)).

(** The calls and the seconds of pause in a log. *)
Fixpoint count_calls (log : list event) : nat :=
  match log with
  | [] => O
  | EvCall :: log => S (count_calls log)
  | EvSleep _ :: log => count_calls log
  end.

Fixpoint seconds_slept (log : list event) : Z :=
  match log with
  | [] => 0
  | EvCall :: log => seconds_slept log
  | EvSleep delay :: log => (delay + seconds_slept log)%Z
  end.

(** The store after [_store] has committed [chunks] for [name]. *)
Definition committed (name : pystr) (chunks : list pystr) (d : database) : database :=
  match chunks, pdf_chunks d with
  | _ :: _, Some rows =>
      {| pdf_chunks := Some (rows ++ chunk_rows (basename name) 0 chunks);
         word_frequencies := word_frequencies d |}
  | _, _ => d
  end.

(** The rows a task writes for a file: none when nothing is extracted. *)
Definition document_rows (extract : pystr -> pystr)
    (split_chunks : pystr -> Z -> list pystr) (chunk_size : Z) (pdf_file : pystr)
  : list chunk_row :=
  if truthy (extract pdf_file)
  then chunk_rows (basename pdf_file) 0 (split_chunks (extract pdf_file) chunk_size)
  else [].

(** The words the counting loops visit, batch after batch, chunk after
    chunk. *)
Fixpoint words_visited (U : unicode_data) (batches : list (list pystr))
  : outcome (list pystr) :=
  match batches with
  | [] => mret []
  | chunk_batch :: rest =>
      merged_chunks ← merge_split_words U chunk_batch;
      words ← words_visited U rest;
      mret (concat (map (clean_text U) merged_chunks) ++ words)
  end.

(** A chunk that the merge leaves alone: it ends in white space or in a
    letter. *)
Definition well_ended (U : unicode_data) (chunk : pystr) : Prop :=
  exists c, last chunk = Some c ∧ isspace c || isalpha U c = true.

(** ** Example data *)

Definition row (name : string) (index : Z) (text : string) : chunk_row :=
  {| file_name := py name; chunk_index := index; chunk_text := py text |}.

(** One file cut inside the word "world". *)
Definition split_word_db : database :=
  {| pdf_chunks := Some [row "a.pdf" 0 "hello wor"; row "a.pdf" 1 "ld this is"];
     word_frequencies := Some ∅ |}.

Definition split_word_counts : gmap pystr Z :=
  list_to_map [(py "hello", 1%Z); (py "wor", 1%Z); (py "ld", 1%Z);
               (py "this", 1%Z); (py "is", 1%Z)].

Definition the_cat_sat_counts : gmap pystr Z :=
  list_to_map [(py "the", 1%Z); (py "cat", 1%Z); (py "sat", 1%Z)].

(** An operation that finds the store locked twice and then returns the
    number of refusals it met. *)
Definition twice_locked (n : nat) : outcome nat * nat :=
  if (n <? 2)%nat
  then (Raise (OperationalError (py "database is locked")), S n)
  else (Return n, n).

(** An operation that fails on a missing table. *)
Definition no_table (n : nat) : outcome nat * nat :=
  (Raise (OperationalError (py "no such table: pdf_chunks")), S n).

Definition always_locked (n : nat) : outcome nat * nat :=
  (Raise (OperationalError (py "database is locked")), S n).

Definition no_sleep (delay : Z) (n : nat) : nat := n.

Definition empty_db : database :=
  {| pdf_chunks := Some []; word_frequencies := Some ∅ |}.

(** An extractor that reads "the cat sat" from a.pdf and fails on every
    other file, and a splitter that keeps a text in one chunk. *)
Definition cat_extractor (pdf_file : pystr) : pystr :=
  if bool_decide (pdf_file = py "books/a.pdf") then py "the cat sat" else [].

Definition one_chunk (text : pystr) (chunk_size : Z) : list pystr := [text].

(** Comparisons on code points as arithmetic facts. *)
Ltac char_arith :=
  unfold keep_char, not_letter_or_space, ascii_lower, is_az, is_AZ, isspace, SPACE in *;
  repeat rewrite ?orb_true_iff, ?andb_true_iff, ?orb_false_iff, ?andb_false_iff,
    ?negb_true_iff, ?negb_false_iff, ?N.leb_le, ?N.leb_gt, ?N.ltb_lt, ?N.ltb_ge,
    ?N.eqb_eq, ?N.eqb_neq in *;
  lia.



(** * Properties *)

(** ** Text *)

Lemma split_from_Forall (P : N -> Prop) s : forall cur,
  Forall P cur -> Forall P s -> Forall (Forall P) (split_from cur s).
Proof.
  induction s as [|c s IH]; simpl; intros cur Hc Hs.
  - destruct (truthy cur); constructor; auto.
  - inversion Hs; subst. destruct (isspace c).
    + destruct (truthy cur); [constructor; auto|]; apply IH; auto.
    + apply IH; [apply Forall_app; auto | auto].
Qed.

Lemma split_from_tokens s : forall cur,
  Forall (fun c => isspace c = false) cur ->
  Forall (fun t => t ≠ [] ∧ Forall (fun c => isspace c = false) t) (split_from cur s).
Proof.
  induction s as [|c s IH]; simpl; intros cur Hc.
  - destruct cur; simpl; constructor; [split; [done|auto] | constructor].
  - destruct (isspace c) eqn:E.
    + destruct cur eqn:Ecur; simpl.
      * apply IH. constructor.
      * constructor; [split; [done|auto] | apply IH; constructor].
    + apply IH. apply Forall_app; split; auto.
Qed.

(** The last token of a text that does not end in white space is its
    longest suffix without white space. *)
Lemma split_from_last s : forall cur c,
  last s = Some c -> isspace c = false ->
  Forall (fun c => isspace c = false) cur ->
  exists p t, cur ++ s = p ++ t ∧ t ≠ [] ∧
    Forall (fun c => isspace c = false) t ∧
    (p = [] ∨ exists q b, p = q ++ [b] ∧ isspace b = true) ∧
    last (split_from cur s) = Some t.
Proof.
  induction s as [|c0 s IH]; intros cur c Hl Hc Hcur; [done|].
  destruct s as [|c1 s].
  - simpl in Hl. injection Hl as ->. simpl. rewrite Hc. simpl.
    exists [], (cur ++ [c]). split; [done|]. split; [by destruct cur|].
    split; [apply Forall_app; auto|]. split; [by left|].
    by destruct (cur ++ [c]) eqn:E; [destruct cur|].
  - change (last (c0 :: c1 :: s)) with (last (c1 :: s)) in Hl.
    change (split_from cur (c0 :: c1 :: s)) with
      (if isspace c0
       then (if truthy cur then cur :: split_from [] (c1 :: s)
             else split_from [] (c1 :: s))
       else split_from (cur ++ [c0]) (c1 :: s)).
    destruct (isspace c0) eqn:E0.
    + destruct (IH [] c Hl Hc) as (p & t & Heq & Hne & Ht & Hp & Hlast); [constructor|].
      simpl in Heq. exists (cur ++ c0 :: p), t.
      split; [by rewrite Heq, <- app_assoc|]. split; [done|]. split; [done|]. split.
      * right. destruct Hp as [->|(q & b & -> & Hb)].
        -- exists cur, c0. done.
        -- exists (cur ++ c0 :: q), b. split; [|done].
           by rewrite <- app_assoc.
      * destruct (truthy cur); [|done].
        rewrite last_cons. by rewrite Hlast.
    + destruct (IH (cur ++ [c0]) c Hl Hc) as (p & t & Heq & Hrest).
      { apply Forall_app; auto. }
      exists p, t. split; [|done]. rewrite <- Heq. by rewrite <- app_assoc.
Qed.

Lemma rcut_None sep s : sep ∉ s -> rcut sep s = None.
Proof.
  induction s as [|c s IH]; [done|]. intros Hn.
  apply not_elem_of_cons in Hn as [Hne Hn]. simpl. rewrite IH by done.
  destruct (N.eqb_spec c sep); [congruence|done].
Qed.

Lemma rcut_app sep q t : sep ∉ t -> rcut sep (q ++ sep :: t) = Some (q, t).
Proof.
  intros Hn. induction q as [|c q IH]; simpl.
  - rewrite rcut_None by done. by rewrite N.eqb_refl.
  - by rewrite IH.
Qed.

Lemma item_first_rsplit1 sep s : exists a, item_first (rsplit1 sep s) = Return a.
Proof. unfold rsplit1. destruct (rcut sep s) as [[a b]|]; eauto. Qed.

Lemma nonspace_not_SPACE t : Forall (fun c => isspace c = false) t -> SPACE ∉ t.
Proof.
  intros Ht Hin. rewrite Forall_forall in Ht. apply Ht in Hin. done.
Qed.

(** ** clean_text *)

Lemma re_sub_delete cls text :
  re_sub_class cls [] text = List.filter (fun c => negb (cls c)) text.
Proof.
  induction text as [|c text IH]; [done|]. simpl.
  destruct (cls c); simpl; by rewrite IH.
Qed.

Lemma filter_keep_char text :
  re_sub_class not_letter_or_space [] text = List.filter keep_char text.
Proof.
  rewrite re_sub_delete. apply List.filter_ext. intros c.
  unfold not_letter_or_space, keep_char. apply negb_involutive.
Qed.

Lemma lower_kept U s :
  Forall (fun c => keep_char c = true) s -> lower U s = map ascii_lower s.
Proof.
  induction 1 as [|c s Hc _ IH]; [done|].
  unfold lower in *. simpl. rewrite IH. f_equal.
  unfold lower_char, ascii_lower. destruct (is_AZ c) eqn:EAZ; [done|].
  destruct ((c <? 128) || isspace c) eqn:E; [done|].
  exfalso. char_arith.
Qed.

Lemma clean_text_spec U text : clean_text U text = tokenize_spec text.
Proof.
  unfold clean_text, tokenize_spec. rewrite filter_keep_char.
  rewrite lower_kept; [done|].
  apply Forall_forall. intros c Hc. apply list_elem_of_In in Hc.
  apply List.filter_In in Hc. tauto.
Qed.

Lemma ascii_lower_kept c :
  keep_char c = true -> is_az (ascii_lower c) || isspace (ascii_lower c) = true.
Proof.
  intros H. unfold ascii_lower. destruct (is_AZ c) eqn:E; char_arith.
Qed.

Lemma clean_text_words U text : Forall lower_word (clean_text U text).
Proof.
  rewrite clean_text_spec. unfold tokenize_spec.
  set (s := map ascii_lower (List.filter keep_char text)).
  assert (Hs : Forall (fun c => is_az c || isspace c = true) s).
  { subst s. apply Forall_forall. intros c Hc.
    apply list_elem_of_fmap in Hc as (c0 & -> & Hc0).
    apply ascii_lower_kept. apply list_elem_of_In in Hc0.
    apply List.filter_In in Hc0. tauto. }
  pose proof (split_from_tokens s [] (Forall_nil_2 _)) as Ht.
  pose proof (split_from_Forall _ s [] (Forall_nil_2 _) Hs) as Hk.
  unfold split. rewrite Forall_forall in *. intros w Hw.
  destruct (Ht w Hw) as [Hne Hns]. split; [done|].
  specialize (Hk w Hw). rewrite Forall_forall in *. intros c Hc.
  specialize (Hk c Hc). specialize (Hns c Hc). rewrite Hns in Hk.
  by rewrite orb_false_r in Hk.
Qed.

(** C6: for every text, [clean_text] deletes each character outside a-z,
    A-Z and white space (it puts nothing in its place), then puts the rest
    in lower case, then cuts at white space; a deleted character never
    separates two tokens, and "don't" gives the one token "dont", not
    "don" and "t". *)
Theorem clean_text_deletes_then_splits (U : unicode_data) :
  (forall text,
     re_sub_class not_letter_or_space [] text = List.filter keep_char text) ∧
  (forall text, clean_text U text = tokenize_spec text) ∧
  (forall u v c,
     clean_text U (u ++ c :: v) =
     if keep_char c then clean_text U (u ++ c :: v) else clean_text U (u ++ v)) ∧
  clean_text U (py "don't") = [py "dont"] ∧
  clean_text U (py "don't") ≠ [py "don"; py "t"].
Proof.
  split; [apply filter_keep_char|]. split; [apply clean_text_spec|].
  split; [|split; [by vm_compute | by vm_compute]].
  intros u v c. destruct (keep_char c) eqn:E; [done|].
  rewrite !clean_text_spec. unfold tokenize_spec.
  rewrite !List.filter_app. simpl. by rewrite E.
Qed.

(** ** merge_split_words *)

Lemma bind_Return {A B} (f : A -> outcome B) (a : A) : Return a ≫= f = f a.
Proof. reflexivity. Qed.

Lemma item_last_Some {A} (l : list A) (x : A) :
  last l = Some x -> item_last l = Return x.
Proof. unfold item_last. by intros ->. Qed.

Lemma merge_loop_app U a : forall b merged buffer,
  merge_loop U (a ++ b) merged buffer =
  match merge_loop U a merged buffer with
  | Return (merged, buffer) => merge_loop U b merged buffer
  | Raise e => Raise e
  end.
Proof.
  induction a as [|chunk a IH]; intros b merged buffer; [done|].
  simpl. destruct (merge_step U merged buffer chunk) as [[m1 b1]|e]; simpl; [|done].
  apply IH.
Qed.

Lemma merge_step_total U merged buffer chunk :
  buffer ++ chunk ≠ [] ->
  exists merged' buffer', merge_step U merged buffer chunk = Return (merged', buffer').
Proof.
  intros Hne. unfold merge_step.
  assert (exists chunk' buffer0,
    (if truthy buffer then (buffer ++ chunk, []) else (chunk, buffer))
      = (chunk', buffer0) ∧ chunk' ≠ []) as (chunk' & buffer0 & -> & Hne').
  { destruct buffer; simpl; eauto. }
  destruct (last chunk') as [c|] eqn:Hl; [|by apply last_None in Hl].
  rewrite (item_last_Some _ _ Hl), bind_Return.
  destruct (negb (isspace c) && negb (isalpha U c)) eqn:Hc; [|simpl; eauto].
  apply andb_true_iff in Hc as [Hs _]. apply negb_true_iff in Hs.
  destruct (split_from_last chunk' [] c Hl Hs (Forall_nil_2 _))
    as (p & t & _ & _ & _ & _ & Hlast).
  unfold split. rewrite (item_last_Some _ _ Hlast), bind_Return.
  destruct (item_first_rsplit1 SPACE chunk') as [a ->]. simpl. eauto.
Qed.

Lemma merge_step_raise U merged buffer chunk e :
  merge_step U merged buffer chunk = Raise e ->
  e = IndexError ∧ buffer = [] ∧ chunk = [].
Proof.
  intros H. destruct (decide (buffer ++ chunk = [])) as [E|E].
  - apply app_eq_nil in E as [-> ->]. simpl in H. by injection H as <-.
  - destruct (merge_step_total U merged buffer chunk E) as (? & ? & H').
    congruence.
Qed.

Lemma merge_loop_raise U chunks : forall merged buffer e,
  merge_loop U chunks merged buffer = Raise e ->
  e = IndexError ∧
  exists pre post merged',
    chunks = pre ++ [] :: post ∧ merge_loop U pre merged buffer = Return (merged', []).
Proof.
  induction chunks as [|chunk rest IH]; intros merged buffer e H; [done|].
  simpl in H. destruct (merge_step U merged buffer chunk) as [[m1 b1]|e1] eqn:Hs.
  - simpl in H. destruct (IH _ _ _ H) as (-> & pre & post & m' & -> & Hpre).
    split; [done|]. exists (chunk :: pre), post, m'. split; [done|].
    simpl. by rewrite Hs.
  - simpl in H. injection H as ->.
    apply merge_step_raise in Hs as (-> & -> & ->).
    split; [done|]. by exists [], rest, merged.
Qed.

(** C9: the boundary merge takes the last character of each chunk, so it
    fails with an index error on an empty chunk that no carried buffer
    precedes, whatever comes after; it fails in no other way; and on a
    batch of non-empty chunks it always returns. *)
Theorem merge_split_words_empty_chunk (U : unicode_data) :
  (forall pre post merged,
     merge_loop U pre [] [] = Return (merged, []) ->
     merge_split_words U (pre ++ [] :: post) = Raise IndexError) ∧
  (forall chunks,
     Forall (fun chunk => chunk ≠ []) chunks ->
     exists out, merge_split_words U chunks = Return out) ∧
  (forall chunks e,
     merge_split_words U chunks = Raise e ->
     e = IndexError ∧
     exists pre post merged,
       chunks = pre ++ [] :: post ∧ merge_loop U pre [] [] = Return (merged, [])).
Proof.
  split; [|split].
  - intros pre post merged H. unfold merge_split_words.
    rewrite merge_loop_app, H. reflexivity.
  - intros chunks Hne. unfold merge_split_words.
    destruct (merge_loop U chunks [] []) as [[m b]|e] eqn:H; [simpl; eauto|].
    apply merge_loop_raise in H as (_ & pre & post & _ & -> & _).
    apply Forall_app in Hne as [_ Hne]. by inversion Hne.
  - intros chunks e H. unfold merge_split_words in H.
    destruct (merge_loop U chunks [] []) as [[m b]|e'] eqn:H'; [done|].
    simpl in H. injection H as ->. by apply merge_loop_raise in H'.
Qed.

Lemma merge_split_words_empty_chunk_witness :
  merge_split_words ascii_data ([py "ab "] ++ [] :: [py "cd"]) = Raise IndexError ∧
  (exists out, merge_split_words ascii_data [py "ab1"; py "cd"] = Return out).
Proof.
  destruct (merge_split_words_empty_chunk ascii_data) as (H1 & H2 & _).
  split.
  - apply (H1 [py "ab "] [py "cd"] [py "ab "]). reflexivity.
  - apply H2. repeat constructor; discriminate.
Defined.

(** C2, as the code has it: for a non-empty [x] whose last character is
    white space or a letter the batch [[x]] comes back as [[x]]. Otherwise
    two elements come back, the second being the trailing token [t] of
    [x] (the longest suffix without white space); and when a space
    precedes that token, [x = q ++ " " ++ t], the first is [q]: the space
    is dropped, and [q], a space and [t] give [x] back. *)
Theorem merge_split_words_single (U : unicode_data) (x : pystr) (c : N) :
  last x = Some c ->
  if isspace c || isalpha U c
  then merge_split_words U [x] = Return [x]
  else exists p t a,
    x = p ++ t ∧ t ≠ [] ∧ Forall (fun c => isspace c = false) t ∧
    (p = [] ∨ exists q b, p = q ++ [b] ∧ isspace b = true) ∧
    merge_split_words U [x] = Return [a; t] ∧
    (forall q, p = q ++ [SPACE] -> a = q ∧ q ++ [SPACE] ++ t = x).
Proof.
  intros Hl. unfold merge_split_words. simpl merge_loop. unfold merge_step.
  simpl truthy. cbv iota beta. rewrite (item_last_Some _ _ Hl), bind_Return.
  replace (negb (isspace c) && negb (isalpha U c))
    with (negb (isspace c || isalpha U c)) by apply negb_orb.
  destruct (isspace c || isalpha U c) eqn:Hc; [done|].
  apply orb_false_iff in Hc as [Hs _].
  destruct (split_from_last x [] c Hl Hs (Forall_nil_2 _))
    as (p & t & Hx & Hne & Ht & Hp & Hlast).
  simpl in Hx. simpl negb. cbv iota.
  unfold split. rewrite (item_last_Some _ _ Hlast), bind_Return.
  destruct (item_first_rsplit1 SPACE x) as [a Ha]. rewrite Ha. simpl.
  exists p, t, a. repeat (split; [done|]). split.
  - by destruct t.
  - intros q ->. rewrite <- app_assoc in Hx. simpl in Hx. split; [|done].
    unfold rsplit1 in Ha. rewrite Hx, rcut_app in Ha by by apply nonspace_not_SPACE.
    simpl in Ha. by injection Ha as <-.
Qed.

Lemma merge_split_words_single_witness :
  exists p t a,
    py "foo bar1" = p ++ t ∧ t ≠ [] ∧ Forall (fun c => isspace c = false) t ∧
    (p = [] ∨ exists q b, p = q ++ [b] ∧ isspace b = true) ∧
    merge_split_words ascii_data [py "foo bar1"] = Return [a; t] ∧
    (forall q, p = q ++ [SPACE] -> a = q ∧ q ++ [SPACE] ++ t = py "foo bar1").
Proof.
  apply (merge_split_words_single ascii_data (py "foo bar1") 49). reflexivity.
Defined.

(** On "foo bar1" the code gives "foo" and "bar1", which put together are
    not "foo bar1"; on "abc1", with no space, it gives "abc1" twice. *)
Lemma merge_split_words_single_counterexample :
  merge_split_words ascii_data [py "foo bar1"] = Return [py "foo"; py "bar1"] ∧
  py "foo" ++ py "bar1" ≠ py "foo bar1" ∧
  merge_split_words ascii_data [py "abc1"] = Return [py "abc1"; py "abc1"] ∧
  ¬ (exists p t, merge_split_words ascii_data [py "foo bar1"] = Return [p; t]
                 ∧ p ++ t = py "foo bar1").
Proof.
  split; [reflexivity|]. split; [discriminate|]. split; [reflexivity|].
  intros (p & t & H & E). vm_compute in H. injection H as <- <-. discriminate.
Qed.

(** ** Counting *)

Lemma count_word_ok (wf : gmap pystr Z) (word : pystr) :
  (forall w n, wf !! w = Some n -> lower_word w ∧ (1 <= n)%Z) ->
  lower_word word ->
  forall w n, count_word wf word !! w = Some n -> lower_word w ∧ (1 <= n)%Z.
Proof.
  intros Hwf Hword w n. unfold count_word. rewrite lookup_insert.
  case_decide as E; [|apply Hwf]. subst w. intros [= <-]. split; [done|].
  destruct (wf !! word) as [m|] eqn:Em; simpl; [|lia].
  apply Hwf in Em. lia.
Qed.

Lemma count_chunk_ok (U : unicode_data) (chunk : pystr) : forall (wf : gmap pystr Z),
  (forall w n, wf !! w = Some n -> lower_word w ∧ (1 <= n)%Z) ->
  forall w n, count_chunk U wf chunk !! w = Some n -> lower_word w ∧ (1 <= n)%Z.
Proof.
  unfold count_chunk. pose proof (clean_text_words U chunk) as Hw.
  induction Hw as [|word words Hword _ IH]; intros wf Hwf; [done|].
  simpl. apply IH. by apply count_word_ok.
Qed.

Lemma count_batch_ok (U : unicode_data) (chunk_batch : list pystr)
    (wf wf' : gmap pystr Z) :
  (forall w n, wf !! w = Some n -> lower_word w ∧ (1 <= n)%Z) ->
  count_batch U wf chunk_batch = Return wf' ->
  forall w n, wf' !! w = Some n -> lower_word w ∧ (1 <= n)%Z.
Proof.
  intros Hwf. unfold count_batch.
  destruct (merge_split_words U chunk_batch) as [merged|e]; [|done].
  rewrite bind_Return. intros [= <-]. revert wf Hwf.
  induction merged as [|chunk merged IH]; intros wf Hwf; [done|].
  simpl. apply IH. by apply count_chunk_ok.
Qed.

Lemma count_batches_ok (U : unicode_data) (batches : list (list pystr)) :
  forall (wf wf' : gmap pystr Z),
  (forall w n, wf !! w = Some n -> lower_word w ∧ (1 <= n)%Z) ->
  count_batches U wf batches = Return wf' ->
  forall w n, wf' !! w = Some n -> lower_word w ∧ (1 <= n)%Z.
Proof.
  induction batches as [|b rest IH]; intros wf wf' Hwf; simpl.
  - by intros [= <-].
  - destruct (count_batch U wf b) as [wf1|e] eqn:E; [|done].
    rewrite bind_Return. apply IH. by apply (count_batch_ok U b wf).
Qed.

(** C10: whatever the chunk table holds, every key of the map that
    [process_chunks_in_batches] returns is a non-empty word of letters a-z
    only, and every count is at least 1. *)
Theorem word_frequencies_keys (U : unicode_data) (d d' : database) (batch_size : Z)
    (counts : gmap pystr Z) :
  process_chunks_in_batches U d batch_size = Return (counts, d') ->
  forall w n, counts !! w = Some n ->
    w ≠ [] ∧ Forall (fun c => is_az c = true) w ∧ (1 <= n)%Z.
Proof.
  unfold process_chunks_in_batches. intros H w n Hw.
  destruct (retrieve_chunks_in_batches d batch_size) as [batches|e]; [|done].
  rewrite bind_Return in H.
  destruct (count_batches U ∅ batches) as [counts0|e] eqn:E; [|done].
  rewrite bind_Return in H.
  destruct (store_frequencies counts0 d) as [d0|e]; [|done].
  rewrite bind_Return in H. injection H as <- <-.
  destruct (count_batches_ok U batches ∅ counts0) with (w := w) (n := n)
    as [[? ?] ?]; [by intros ? ? ?%lookup_empty_Some|done|done|done].
Qed.

Lemma word_frequencies_keys_witness :
  py "wor" ≠ [] ∧ Forall (fun c => is_az c = true) (py "wor") ∧ (1 <= 1)%Z.
Proof.
  apply (word_frequencies_keys ascii_data split_word_db
           {| pdf_chunks := pdf_chunks split_word_db;
              word_frequencies := Some split_word_counts |}
           1000 split_word_counts).
  - by vm_compute.
  - by vm_compute.
Defined.

(** ** Reading the table in one batch *)

Lemma py_range_single total batch_size :
  (0 < total <= batch_size)%Z -> py_range 0 total batch_size = Return [0%Z].
Proof.
  intros H. unfold py_range.
  destruct (Z.eqb_spec batch_size 0); [lia|].
  destruct (Z.ltb_spec 0 batch_size); [|lia].
  destruct (Z.ltb_spec 0 total); [|lia].
  rewrite Z.div_small by lia. reflexivity.
Qed.

Lemma retrieve_single_batch d rows batch_size :
  pdf_chunks d = Some rows -> rows ≠ [] ->
  (Z.of_nat (length rows) <= batch_size)%Z ->
  retrieve_chunks_in_batches d batch_size = Return [map chunk_text rows].
Proof.
  intros Hd Hne Hlen. unfold retrieve_chunks_in_batches. rewrite Hd.
  rewrite py_range_single by (destruct rows; [done|simpl in *; lia]).
  rewrite bind_Return. simpl. unfold limit_offset. simpl.
  destruct (Z.ltb_spec batch_size 0); [lia|].
  change (Z.to_nat 0) with 0%nat. rewrite drop_0.
  rewrite take_ge; [done|]. rewrite length_map. lia.
Qed.

(** C1, as the code has it: the batch ["hello wor", "ld this is"], read
    as one batch, is counted as "hello", "wor", "ld", "this" and "is",
    once each; "world" is no key: the first chunk ends in a letter, so
    the merge leaves both chunks as they are. *)
Theorem split_word_not_repaired (U : unicode_data) (d : database)
    (rows : list chunk_row) (table : gmap pystr Z) (batch_size : Z) :
  pdf_chunks d = Some rows ->
  map chunk_text rows = [py "hello wor"; py "ld this is"] ->
  word_frequencies d = Some table ->
  (2 <= batch_size)%Z ->
  process_chunks_in_batches U d batch_size =
    Return (split_word_counts,
            {| pdf_chunks := Some rows;
               word_frequencies := Some (upsert_frequencies split_word_counts table) |})
  ∧ split_word_counts !! py "this" = Some 1%Z
  ∧ split_word_counts !! py "is" = Some 1%Z
  ∧ split_word_counts !! py "wor" = Some 1%Z
  ∧ split_word_counts !! py "ld" = Some 1%Z
  ∧ split_word_counts !! py "world" = None.
Proof.
  intros Hrows Htexts Htable Hbs.
  split; [|by vm_compute].
  unfold process_chunks_in_batches.
  assert (length rows = 2%nat) as Hlen
    by (apply (f_equal length) in Htexts; by rewrite length_map in Htexts).
  rewrite (retrieve_single_batch d rows batch_size Hrows);
    [|by destruct rows | lia].
  rewrite bind_Return, Htexts.
  assert (count_batches U ∅ [[py "hello wor"; py "ld this is"]]
          = Return split_word_counts) as -> by (by vm_compute).
  rewrite bind_Return. unfold store_frequencies.
  destruct (decide (split_word_counts = ∅)) as [E|_].
  { apply (f_equal (fun m : gmap pystr Z => m !! py "is")) in E. by vm_compute in E. }
  by rewrite Htable, Hrows.
Qed.

Lemma split_word_not_repaired_witness :
  process_chunks_in_batches ascii_data split_word_db 1000 =
    Return (split_word_counts,
            {| pdf_chunks := pdf_chunks split_word_db;
               word_frequencies := Some (upsert_frequencies split_word_counts ∅) |})
  ∧ split_word_counts !! py "this" = Some 1%Z
  ∧ split_word_counts !! py "is" = Some 1%Z
  ∧ split_word_counts !! py "wor" = Some 1%Z
  ∧ split_word_counts !! py "ld" = Some 1%Z
  ∧ split_word_counts !! py "world" = None.
Proof.
  apply (split_word_not_repaired ascii_data split_word_db _ ∅ 1000);
    [reflexivity | reflexivity | reflexivity | lia].
Defined.

(** On that batch the returned map has "wor" and "ld" as keys and no
    "world". *)
Lemma split_word_not_repaired_counterexample :
  exists counts d',
    process_chunks_in_batches ascii_data split_word_db 1000 = Return (counts, d')
    ∧ counts !! py "world" = None
    ∧ counts !! py "wor" = Some 1%Z
    ∧ counts !! py "ld" = Some 1%Z.
Proof.
  exists split_word_counts,
    {| pdf_chunks := pdf_chunks split_word_db;
       word_frequencies := Some split_word_counts |}.
  by vm_compute.
Qed.

(** ** The store *)

(** C7: [setup_database] with [reset_db] true drops and recreates both
    tables, so both exist and are empty afterwards, whatever was there;
    with [reset_db] false it creates each table only where it is missing
    and leaves the rows of an existing table as they are. *)
Theorem setup_database_tables (d : database) :
  setup_database true d = {| pdf_chunks := Some []; word_frequencies := Some ∅ |}
  ∧ pdf_chunks (setup_database false d) =
      Some (match pdf_chunks d with Some rows => rows | None => [] end)
  ∧ word_frequencies (setup_database false d) =
      Some (match word_frequencies d with Some table => table | None => ∅ end).
Proof.
  destruct d as [[rows|] [table|]]; repeat split.
Qed.

Lemma upsert_lookup (word : pystr) (freq : Z) (table : gmap pystr Z) (w : pystr) :
  upsert word freq table !! w =
  if decide (word = w)
  then Some (match table !! word with
             | Some frequency => frequency + freq
             | None => freq
             end)%Z
  else table !! w.
Proof.
  unfold upsert. destruct (table !! word) eqn:E; rewrite lookup_insert;
    by case_decide.
Qed.

Lemma upsert_frequencies_lookup (counts table : gmap pystr Z) (w : pystr) :
  upsert_frequencies counts table !! w =
  match counts !! w with
  | Some freq => Some (match table !! w with
                       | Some frequency => frequency + freq
                       | None => freq
                       end)%Z
  | None => table !! w
  end.
Proof.
  unfold upsert_frequencies.
  apply (map_fold_weak_ind (fun (r : gmap pystr Z) (m : gmap pystr Z) =>
    r !! w = match m !! w with
             | Some freq => Some (match table !! w with
                                  | Some frequency => frequency + freq
                                  | None => freq
                                  end)%Z
             | None => table !! w
             end)).
  - by rewrite lookup_empty.
  - intros word freq m r Hm IH. rewrite upsert_lookup, lookup_insert.
    case_decide as E; [|done]. subst w. rewrite Hm in IH. by rewrite IH.
Qed.

(** C4: the upsert of a word with no row creates the row with the delta
    as count, and on an existing row it adds the delta to the stored
    count; the other rows stay; so does the loop over a whole map of
    counts. Storing {"cat": 3} and then, in a second call, {"cat": 2}
    leaves 5. *)
Theorem upsert_accumulates (word : pystr) (delta : Z) (counts table : gmap pystr Z) :
  upsert word delta table !! word =
    Some (match table !! word with
          | Some frequency => frequency + delta
          | None => delta
          end)%Z
  ∧ (forall w, upsert word delta table !! w =
               if decide (word = w) then upsert word delta table !! word
               else table !! w)
  ∧ upsert_frequencies counts table !! word =
      match counts !! word with
      | Some freq => Some (match table !! word with
                           | Some frequency => frequency + freq
                           | None => freq
                           end)%Z
      | None => table !! word
      end
  ∧ (d1 ← store_frequencies {[ py "cat" := 3%Z ]} empty_db;
     store_frequencies {[ py "cat" := 2%Z ]} d1) =
    Return {| pdf_chunks := Some [];
              word_frequencies := Some {[ py "cat" := 5%Z ]} |}.
Proof.
  split; [|split; [|split]].
  - rewrite upsert_lookup. by case_decide.
  - intros w. rewrite !upsert_lookup. by repeat case_decide.
  - apply upsert_frequencies_lookup.
  - by vm_compute.
Qed.

(** ** execute_with_retry *)

Lemma retry_loop_locked {St V} (func : St -> outcome V * St) (sleep : Z -> St -> St)
    (retries delay : Z) (k : nat) (s s' : St) :
  (0 <= delay)%Z ->
  locked_run func sleep delay k s s' ->
  forall n,
    retry_loop func sleep (k + n) retries delay s =
    let '(r, sf, log) := retry_loop func sleep n retries delay s' in
    (r, sf, refused_log k delay ++ log).
Proof.
  intros Hd H. induction H as [s|k s e s1 s' Hf He _ IH]; intros n.
  - simpl. by destruct (retry_loop func sleep n retries delay s) as [[r sf] log].
  - simpl. rewrite Hf. destruct e as [|msg|msg|msg]; try discriminate He.
    simpl in He. rewrite He. destruct (Z.ltb_spec delay 0); [lia|].
    rewrite IH.
    by destruct (retry_loop func sleep n retries delay s') as [[r sf] log].
Qed.

Lemma retry_loop_settles {St V} (func : St -> outcome V * St) (sleep : Z -> St -> St)
    (retries delay : Z) (n : nat) (s s' : St) (r : outcome V) :
  func s = (r, s') ->
  (forall e, r = Raise e -> is_locked e = false) ->
  retry_loop func sleep (S n) retries delay s = (r, s', [EvCall]).
Proof.
  intros Hf Hr. simpl. rewrite Hf. destruct r as [v|e]; [done|].
  specialize (Hr e eq_refl). destruct e; try done. simpl in Hr. by rewrite Hr.
Qed.

Lemma execute_with_retry_settles {St V} (func : St -> outcome V * St)
    (sleep : Z -> St -> St) (retries delay : Z) (k : nat) (s s' s'' : St)
    (r : outcome V) :
  (0 <= delay)%Z -> (Z.of_nat k < retries)%Z ->
  locked_run func sleep delay k s s' ->
  func s' = (r, s'') ->
  (forall e, r = Raise e -> is_locked e = false) ->
  execute_with_retry func sleep retries delay s =
    (r, s'', refused_log k delay ++ [EvCall]).
Proof.
  intros Hd Hk Hrun Hf Hr. unfold execute_with_retry.
  replace (Z.to_nat retries) with (k + S (Z.to_nat retries - S k))%nat by lia.
  rewrite (retry_loop_locked func sleep retries delay k s s' Hd Hrun).
  by rewrite (retry_loop_settles func sleep retries delay _ s' s'' r Hf Hr).
Qed.

(** C3: a failure on the lock is followed by the fixed pause and another
    attempt, as long as attempts are left; the first result or failure of
    another kind ends the loop at once, with no further call and no pause
    after it, and is passed on as it is; when all [retries] attempts fail
    on the lock, the executor raises a plain exception, which is not the
    store's operational error. The log lists the calls and pauses made. *)
Theorem execute_with_retry_policy {St V} (func : St -> outcome V * St)
    (sleep : Z -> St -> St) (retries delay : Z) (s : St) :
  (0 <= delay)%Z ->
  (forall k s' v s'',
     (Z.of_nat k < retries)%Z ->
     locked_run func sleep delay k s s' ->
     func s' = (Return v, s'') ->
     execute_with_retry func sleep retries delay s =
       (Return v, s'', refused_log k delay ++ [EvCall]))
  ∧ (forall k s' e s'',
     (Z.of_nat k < retries)%Z ->
     locked_run func sleep delay k s s' ->
     func s' = (Raise e, s'') ->
     is_locked e = false ->
     execute_with_retry func sleep retries delay s =
       (Raise e, s'', refused_log k delay ++ [EvCall]))
  ∧ (forall s',
     locked_run func sleep delay (Z.to_nat retries) s s' ->
     execute_with_retry func sleep retries delay s =
       (Raise (retries_exhausted retries), s', refused_log (Z.to_nat retries) delay)
     ∧ forall msg, retries_exhausted retries ≠ OperationalError msg).
Proof.
  intros Hd. split; [|split].
  - intros k s' v s'' Hk Hrun Hf.
    by apply (execute_with_retry_settles func sleep retries delay k s s' s'').
  - intros k s' e s'' Hk Hrun Hf He.
    apply (execute_with_retry_settles func sleep retries delay k s s' s''); try done.
    by intros e' [= <-].
  - intros s' Hrun. split; [|done]. unfold execute_with_retry.
    rewrite <- (Nat.add_0_r (Z.to_nat retries)) at 1.
    rewrite (retry_loop_locked func sleep retries delay _ s s' Hd Hrun).
    simpl. by rewrite app_nil_r.
Qed.

Lemma execute_with_retry_policy_witness :
  execute_with_retry twice_locked no_sleep 5 10 0%nat =
    (Return 2%nat, 2%nat, [EvCall; EvSleep 10; EvCall; EvSleep 10; EvCall])
  ∧ execute_with_retry no_table no_sleep 5 10 0%nat =
    (Raise (OperationalError (py "no such table: pdf_chunks")), 1%nat, [EvCall])
  ∧ execute_with_retry always_locked no_sleep 2 10 0%nat =
    (Raise (PyException (py "Failed to execute after 2 retries")), 2%nat,
     [EvCall; EvSleep 10; EvCall; EvSleep 10]).
Proof.
  split; [|split].
  - destruct (execute_with_retry_policy twice_locked no_sleep 5 10 0%nat)
      as (H & _ & _); [lia|].
    apply (H 2%nat 2%nat 2%nat 2%nat); [lia | | reflexivity].
    apply (locked_run_S _ _ _ 1 0%nat (OperationalError (py "database is locked")) 1%nat);
      [reflexivity | reflexivity |].
    apply (locked_run_S _ _ _ 0 1%nat (OperationalError (py "database is locked")) 2%nat);
      [reflexivity | reflexivity |].
    apply locked_run_O.
  - destruct (execute_with_retry_policy no_table no_sleep 5 10 0%nat)
      as (_ & H & _); [lia|].
    apply (H 0%nat 0%nat _ 1%nat); [lia | apply locked_run_O | reflexivity | reflexivity].
  - destruct (execute_with_retry_policy always_locked no_sleep 2 10 0%nat)
      as (_ & _ & H); [lia|].
    apply (H 2%nat).
    apply (locked_run_S _ _ _ 1 0%nat (OperationalError (py "database is locked")) 1%nat);
      [reflexivity | reflexivity |].
    apply (locked_run_S _ _ _ 0 1%nat (OperationalError (py "database is locked")) 2%nat);
      [reflexivity | reflexivity |].
    apply locked_run_O.
Defined.

(** ** store_chunks_in_db *)

Lemma foldl_insert_chunk (name : pystr) (chunks : list pystr) :
  forall (first : nat) (rows : list chunk_row),
    foldl (insert_chunk name) rows
          (imap (fun i x => (Z.of_nat (first + i), x)) chunks)
    = rows ++ chunk_rows name first chunks.
Proof.
  unfold chunk_rows.
  induction chunks as [|chunk chunks IH]; intros first rows; simpl.
  - by rewrite app_nil_r.
  - unfold insert_chunk at 2. simpl.
    rewrite (imap_ext _ (fun i x => (Z.of_nat (S first + i), x)))
      by (intros; simpl; do 2 f_equal; lia).
    rewrite IH, <- app_assoc. simpl. rewrite Nat.add_0_r. do 2 f_equal.
    apply imap_ext. intros. simpl. do 2 f_equal. lia.
Qed.

Lemma foldl_enumerate (name : pystr) (chunks : list pystr) (rows : list chunk_row) :
  foldl (insert_chunk name) rows (enumerate chunks)
  = rows ++ chunk_rows name 0 chunks.
Proof. exact (foldl_insert_chunk name chunks 0 rows). Qed.

Lemma chunk_rows_lookup (name : pystr) (first : nat) (chunks : list pystr) (i : nat) :
  chunk_rows name first chunks !! i =
  (fun chunk => {| file_name := name; chunk_index := Z.of_nat (first + i);
                   chunk_text := chunk |}) <$> chunks !! i.
Proof. unfold chunk_rows. by rewrite list_lookup_imap. Qed.

Lemma chunk_rows_index (name : pystr) (chunks : list pystr) : forall first,
  map chunk_index (chunk_rows name first chunks)
  = map Z.of_nat (seq first (length chunks)).
Proof.
  unfold chunk_rows. induction chunks as [|chunk chunks IH]; intros first; [done|].
  simpl. rewrite Nat.add_0_r. f_equal. rewrite <- IH. f_equal.
  apply imap_ext. intros. simpl. do 2 f_equal. lia.
Qed.

Lemma chunk_rows_name (name : pystr) (first : nat) (chunks : list pystr) :
  Forall (fun r => file_name r = name) (chunk_rows name first chunks).
Proof.
  apply Forall_lookup. intros i r. rewrite chunk_rows_lookup.
  destruct (chunks !! i); simpl; [|done]. by intros [= <-].
Qed.

Lemma filter_other_names (name : pystr) (rows : list chunk_row) :
  Forall (fun r => file_name r ≠ name) rows ->
  List.filter (fun r => bool_decide (file_name r = name)) rows = [].
Proof.
  induction 1 as [|r rows Hr _ IH]; [done|].
  simpl. by rewrite bool_decide_eq_false_2.
Qed.

Lemma leading_busy_drop (l : list bool) :
  head (drop (leading_busy l) l) ≠ Some true.
Proof. induction l as [|[] l IH]; simpl; done. Qed.

Lemma _store_refused (name : pystr) (chunks : list pystr) (d : database)
    (rows : list chunk_row) :
  chunks ≠ [] -> pdf_chunks d = Some rows ->
  forall (busy : list bool) (sl : Z),
    locked_run (_store name chunks) sleep_world 10 (leading_busy busy)
      {| db := d; contention := busy; slept := sl |}
      {| db := d; contention := drop (leading_busy busy) busy;
         slept := (sl + 10 * Z.of_nat (leading_busy busy))%Z |}.
Proof.
  intros Hne Hd busy. induction busy as [|[] busy IH]; intros sl.
  - simpl. rewrite Z.add_0_r. constructor.
  - change (leading_busy (true :: busy)) with (S (leading_busy busy)).
    apply (locked_run_S _ _ _ _ _ (OperationalError (py "database is locked"))
             {| db := d; contention := busy; slept := sl |}).
    + destruct chunks; [done|]. simpl. by rewrite Hd.
    + reflexivity.
    + specialize (IH (sl + 10)%Z). simpl drop.
      replace (sl + 10 * Z.of_nat (S (leading_busy busy)))%Z
        with (sl + 10 + 10 * Z.of_nat (leading_busy busy))%Z by lia.
      exact IH.
  - simpl. rewrite Z.add_0_r. constructor.
Qed.

Lemma _store_commits (name : pystr) (chunks : list pystr) (d : database)
    (rows : list chunk_row) (busy : list bool) (sl : Z) :
  chunks ≠ [] -> pdf_chunks d = Some rows -> head busy ≠ Some true ->
  _store name chunks {| db := d; contention := busy; slept := sl |} =
    (Return tt,
     {| db := {| pdf_chunks := Some (rows ++ chunk_rows (basename name) 0 chunks);
                 word_frequencies := word_frequencies d |};
        contention := tail busy; slept := sl |}).
Proof.
  intros Hne Hd Hb. destruct chunks as [|chunk chunks]; [done|].
  unfold _store. simpl db. rewrite Hd. simpl contention.
  rewrite (foldl_enumerate (basename name) (chunk :: chunks) rows).
  by destruct busy as [|[] busy].
Qed.

Lemma store_chunks_in_db_rows (name : pystr) (chunks : list pystr) (w : world)
    (rows : list chunk_row) :
  chunks ≠ [] ->
  pdf_chunks (db w) = Some rows ->
  (leading_busy (contention w) < 999)%nat ->
  store_chunks_in_db name chunks w =
    (Return tt,
     {| db := {| pdf_chunks := Some (rows ++ chunk_rows (basename name) 0 chunks);
                 word_frequencies := word_frequencies (db w) |};
        contention := tail (drop (leading_busy (contention w)) (contention w));
        slept := (slept w + 10 * Z.of_nat (leading_busy (contention w)))%Z |}).
Proof.
  intros Hne Hd Hk. destruct w as [d busy sl]. simpl in *.
  unfold store_chunks_in_db.
  rewrite (execute_with_retry_settles (_store name chunks) sleep_world 999 10
             (leading_busy busy)
             {| db := d; contention := busy; slept := sl |}
             {| db := d; contention := drop (leading_busy busy) busy;
                slept := (sl + 10 * Z.of_nat (leading_busy busy))%Z |}
             {| db := {| pdf_chunks := Some (rows ++ chunk_rows (basename name) 0 chunks);
                         word_frequencies := word_frequencies d |};
                contention := tail (drop (leading_busy busy) busy);
                slept := (sl + 10 * Z.of_nat (leading_busy busy))%Z |}
             (Return tt));
    [done | lia | lia | by apply (_store_refused name chunks d rows)
    | | done].
  apply _store_commits; try done. apply leading_busy_drop.
Qed.

(** C8: with the chunk table in place and fewer than 999 refusals in a
    row, [store_chunks_in_db] returns and has added, after the rows that
    were there, one row per chunk, in order, under the file's base name,
    the row of the chunk at position [i] carrying [chunk_index] [i]: the
    indices written are 0, 1, ..., n-1, and they are all the indices of
    the document when it had no row before. *)
Theorem store_chunks_in_db_index (name : pystr) (chunks : list pystr) (w : world)
    (rows : list chunk_row) :
  pdf_chunks (db w) = Some rows ->
  (leading_busy (contention w) < 999)%nat ->
  exists w' new,
    store_chunks_in_db name chunks w = (Return tt, w')
    ∧ pdf_chunks (db w') = Some (rows ++ new)
    ∧ word_frequencies (db w') = word_frequencies (db w)
    ∧ length new = length chunks
    ∧ (forall i, new !! i =
         (fun chunk => {| file_name := basename name; chunk_index := Z.of_nat i;
                          chunk_text := chunk |}) <$> chunks !! i)
    ∧ map chunk_index new = map Z.of_nat (seq 0 (length chunks))
    ∧ (Forall (fun r => file_name r ≠ basename name) rows ->
       map chunk_index
           (List.filter (fun r => bool_decide (file_name r = basename name))
                        (rows ++ new))
       = map Z.of_nat (seq 0 (length chunks))).
Proof.
  intros Hd Hk.
  assert (exists w', store_chunks_in_db name chunks w = (Return tt, w')
     ∧ pdf_chunks (db w') = Some (rows ++ chunk_rows (basename name) 0 chunks)
     ∧ word_frequencies (db w') = word_frequencies (db w)) as (w' & Hs & Hp & Hw).
  { destruct (decide (chunks = [])) as [->|Hne].
    - exists w. simpl. by rewrite app_nil_r.
    - rewrite (store_chunks_in_db_rows name chunks w rows Hne Hd Hk). eauto. }
  exists w', (chunk_rows (basename name) 0 chunks).
  repeat (split; [done|]). split; [|split; [|split]].
  - unfold chunk_rows. by rewrite length_imap.
  - intros i. by rewrite chunk_rows_lookup.
  - apply chunk_rows_index.
  - intros Hrows. rewrite List.filter_app.
    rewrite (List.forallb_filter_id _ (chunk_rows (basename name) 0 chunks)),
      <- (chunk_rows_index (basename name) chunks 0).
    + by rewrite filter_other_names.
    + apply List.forallb_forall. intros r Hr%list_elem_of_In.
      pose proof (chunk_rows_name (basename name) 0 chunks) as Hn.
      rewrite Forall_forall in Hn. apply bool_decide_eq_true_2. by apply Hn.
Qed.

Lemma store_chunks_in_db_index_witness :
  exists w' new,
    store_chunks_in_db (py "books/a.pdf") [py "one "; py "two"]
      {| db := empty_db; contention := [true; true; false; true]; slept := 0 |}
      = (Return tt, w')
    ∧ pdf_chunks (db w') = Some ([] ++ new)
    ∧ word_frequencies (db w') = Some ∅
    ∧ length new = 2%nat
    ∧ (forall i, new !! i =
         (fun chunk => {| file_name := basename (py "books/a.pdf");
                          chunk_index := Z.of_nat i;
                          chunk_text := chunk |}) <$> [py "one "; py "two"] !! i)
    ∧ map chunk_index new = [0%Z; 1%Z]
    ∧ (Forall (fun r => file_name r ≠ basename (py "books/a.pdf")) [] ->
       map chunk_index
           (List.filter (fun r => bool_decide (file_name r = basename (py "books/a.pdf")))
                        ([] ++ new))
       = [0%Z; 1%Z]).
Proof.
  apply (store_chunks_in_db_index (py "books/a.pdf") [py "one "; py "two"]
           {| db := empty_db; contention := [true; true; false; true]; slept := 0 |} []).
  - reflexivity.
  - simpl. lia.
Defined.

(** ** The whole run *)

Lemma extract_split_and_store_pdf_skips (extract : pystr -> pystr)
    (split_chunks : pystr -> Z -> list pystr) (pdf_file : pystr) (chunk_size : Z)
    (w : world) :
  extract pdf_file = [] ->
  extract_split_and_store_pdf extract split_chunks pdf_file chunk_size w = w.
Proof. unfold extract_split_and_store_pdf. by intros ->. Qed.

Lemma extract_split_and_store_pdf_stores (extract : pystr -> pystr)
    (split_chunks : pystr -> Z -> list pystr) (pdf_file : pystr) (chunk_size : Z)
    (w : world) (rows : list chunk_row) :
  extract pdf_file ≠ [] ->
  split_chunks (extract pdf_file) chunk_size ≠ [] ->
  pdf_chunks (db w) = Some rows ->
  (leading_busy (contention w) < 999)%nat ->
  extract_split_and_store_pdf extract split_chunks pdf_file chunk_size w =
    {| db := {| pdf_chunks :=
                  Some (rows ++ chunk_rows (basename pdf_file) 0
                                  (split_chunks (extract pdf_file) chunk_size));
                word_frequencies := word_frequencies (db w) |};
       contention := tail (drop (leading_busy (contention w)) (contention w));
       slept := (slept w + 10 * Z.of_nat (leading_busy (contention w)))%Z |}.
Proof.
  intros Ht Hc Hd Hk. unfold extract_split_and_store_pdf.
  destruct (extract pdf_file) as [|c text] eqn:Et; [done|]. simpl negb. cbv iota.
  destruct (split_chunks (c :: text) chunk_size) as [|chunk chunks] eqn:Ec; [done|].
  simpl negb. cbv iota.
  by rewrite (store_chunks_in_db_rows pdf_file (chunk :: chunks) w rows).
Qed.

Lemma process_single_batch (U : unicode_data) (d : database) (rows : list chunk_row)
    (table counts : gmap pystr Z) (batch_size : Z) :
  pdf_chunks d = Some rows -> rows ≠ [] ->
  (Z.of_nat (length rows) <= batch_size)%Z ->
  count_batches U ∅ [map chunk_text rows] = Return counts ->
  counts ≠ ∅ ->
  word_frequencies d = Some table ->
  process_chunks_in_batches U d batch_size =
    Return (counts, {| pdf_chunks := Some rows;
                       word_frequencies := Some (upsert_frequencies counts table) |}).
Proof.
  intros Hd Hne Hlen Hc Hcounts Ht. unfold process_chunks_in_batches.
  rewrite (retrieve_single_batch d rows batch_size Hd Hne Hlen), bind_Return.
  rewrite Hc, bind_Return. unfold store_frequencies.
  destruct (decide (counts = ∅)); [done|]. by rewrite Ht, Hd.
Qed.

(** C5: document A extracts to "the cat sat", document B to the empty
    text, and the splitter keeps A's text in one chunk. Whichever task
    gets its turn first, and with fewer than 999 refusals in a row, a run
    that resets the store leaves one chunk row, A's, with index 0; B's
    task leaves every store as it finds it; and [update_database] returns
    the map {"the": 1, "cat": 1, "sat": 1} and has stored it. *)
Theorem two_documents_end_to_end (U : unicode_data) (extract : pystr -> pystr)
    (split_chunks : pystr -> Z -> list pystr) (A B : pystr) (chunk_size : Z)
    (schedule : list pystr) (w : world) :
  extract A = py "the cat sat" ->
  extract B = [] ->
  split_chunks (py "the cat sat") chunk_size = [py "the cat sat"] ->
  Permutation [A; B] schedule ->
  (leading_busy (contention w) < 999)%nat ->
  pdf_chunks (db (process_files_in_parallel extract split_chunks schedule true
                    chunk_size w))
    = Some [{| file_name := basename A; chunk_index := 0;
               chunk_text := py "the cat sat" |}]
  ∧ (forall w0, extract_split_and_store_pdf extract split_chunks B chunk_size w0 = w0)
  ∧ exists w2,
      update_database U extract split_chunks schedule true chunk_size w
        = (Return the_cat_sat_counts, w2)
      ∧ pdf_chunks (db w2)
        = Some [{| file_name := basename A; chunk_index := 0;
                   chunk_text := py "the cat sat" |}]
      ∧ word_frequencies (db w2) = Some the_cat_sat_counts.
Proof.
  intros HA HB Hsplit Hperm Hk.
  assert (forall w0,
    extract_split_and_store_pdf extract split_chunks B chunk_size w0 = w0) as Hskip
    by (intros w0; by apply extract_split_and_store_pdf_skips).
  assert (forall w0 : world,
    pdf_chunks (db w0) = Some [] -> word_frequencies (db w0) = Some ∅ ->
    (leading_busy (contention w0) < 999)%nat ->
    exists busy sl,
      foldl (fun w pdf_file =>
               extract_split_and_store_pdf extract split_chunks pdf_file chunk_size w)
            w0 schedule
      = {| db := {| pdf_chunks := Some [{| file_name := basename A; chunk_index := 0;
                                         chunk_text := py "the cat sat" |}];
                    word_frequencies := Some ∅ |};
           contention := busy; slept := sl |}) as Hrun.
  { intros w0 Hp Hw Hk0.
    pose proof (extract_split_and_store_pdf_stores extract split_chunks A chunk_size
                  w0 []) as HstoreA.
    rewrite HA, Hsplit, Hw in HstoreA.
    specialize (HstoreA ltac:(done) ltac:(done) Hp Hk0).
    apply Permutation_length_2_inv in Hperm as [->| ->]; simpl.
    - rewrite HstoreA, Hskip. eauto.
    - rewrite Hskip, HstoreA. eauto. }
  split; [|split; [done|]].
  - unfold process_files_in_parallel.
    destruct (Hrun (set_db w (setup_database true (db w)))) as (busy & sl & ->);
      done.
  - unfold update_database, process_files_in_parallel.
    destruct (Hrun (set_db (set_db w (setup_database true (db w)))
                      (setup_database true (db (set_db w (setup_database true (db w)))))))
      as (busy & sl & ->); [done..|].
    simpl db.
    rewrite (process_single_batch U _
               [{| file_name := basename A; chunk_index := 0;
                   chunk_text := py "the cat sat" |}] ∅ the_cat_sat_counts);
      [| done | done | simpl; lia | by vm_compute | | done].
    + eexists. split; [reflexivity|]. split; [done|]. by vm_compute.
    + intros E. apply (f_equal (fun m : gmap pystr Z => m !! py "cat")) in E.
      by vm_compute in E.
Qed.

Lemma two_documents_end_to_end_witness :
  pdf_chunks (db (process_files_in_parallel cat_extractor one_chunk
                    [py "books/b.pdf"; py "books/a.pdf"] true 8000
                    {| db := split_word_db; contention := [true]; slept := 0 |}))
    = Some [row "a.pdf" 0 "the cat sat"]
  ∧ exists w2,
      update_database ascii_data cat_extractor one_chunk
        [py "books/b.pdf"; py "books/a.pdf"] true 8000
        {| db := split_word_db; contention := [true]; slept := 0 |}
      = (Return the_cat_sat_counts, w2).
Proof.
  destruct (two_documents_end_to_end ascii_data cat_extractor one_chunk
              (py "books/a.pdf") (py "books/b.pdf") 8000
              [py "books/b.pdf"; py "books/a.pdf"]
              {| db := split_word_db; contention := [true]; slept := 0 |})
    as (H1 & _ & w2 & H2 & _).
  - reflexivity.
  - reflexivity.
  - reflexivity.
  - apply perm_swap.
  - simpl. lia.
  - split; [exact H1 | exists w2; exact H2].
Defined.

(** * Further properties *)

(** ** execute_with_retry: bounds *)

Lemma retry_loop_bounded {St V} (func : St -> outcome V * St) (sleep : Z -> St -> St)
    (retries delay : Z) (n : nat) : forall s,
  (count_calls (retry_loop func sleep n retries delay s).2 <= n)%nat
  ∧ (0 <= seconds_slept (retry_loop func sleep n retries delay s).2
       <= Z.max 0 delay * Z.of_nat n)%Z.
Proof.
  induction n as [|n IH]; intros s; [simpl; lia|].
  simpl. destruct (func s) as [[v|e] s1]; [simpl; lia|].
  destruct e as [|msg|msg|msg]; try (simpl; lia).
  destruct (contains (py "locked") msg); [|simpl; lia].
  destruct (Z.ltb_spec delay 0); [simpl; lia|].
  specialize (IH (sleep delay s1)).
  destruct (retry_loop func sleep n retries delay (sleep delay s1)) as [[r s2] log].
  simpl in *. lia.
Qed.

(** The executor calls the operation at most [retries] times, never when
    [retries] is zero or less, and pauses for at most [retries] times
    [delay] seconds in all. *)
Theorem execute_with_retry_bounded {St V} (func : St -> outcome V * St)
    (sleep : Z -> St -> St) (retries delay : Z) (s : St) :
  (count_calls (execute_with_retry func sleep retries delay s).2
     <= Z.to_nat retries)%nat
  ∧ (0 <= seconds_slept (execute_with_retry func sleep retries delay s).2
       <= Z.max 0 delay * Z.max 0 retries)%Z.
Proof.
  unfold execute_with_retry.
  pose proof (retry_loop_bounded func sleep retries delay (Z.to_nat retries) s).
  lia.
Qed.

Lemma retry_loop_not_locked {St V} (func : St -> outcome V * St)
    (sleep : Z -> St -> St) (retries delay : Z) (n : nat) : forall s,
  match (retry_loop func sleep n retries delay s).1.1 with
  | Raise e => is_locked e = false
  | Return _ => True
  end.
Proof.
  induction n as [|n IH]; intros s; [done|].
  simpl. destruct (func s) as [[v|e] s1]; [done|].
  destruct e as [|msg|msg|msg]; try done.
  destruct (contains (py "locked") msg) eqn:E; [|by simpl].
  destruct (Z.ltb_spec delay 0); [done|].
  specialize (IH (sleep delay s1)).
  by destruct (retry_loop func sleep n retries delay (sleep delay s1)) as [[r s2] log].
Qed.

(** Whatever the operation does, the failure that leaves the executor is
    never the store's locked error: that one is retried, or replaced when
    the attempts run out. *)
Theorem execute_with_retry_never_locked {St V} (func : St -> outcome V * St)
    (sleep : Z -> St -> St) (retries delay : Z) (s : St) :
  match (execute_with_retry func sleep retries delay s).1.1 with
  | Raise e => is_locked e = false
  | Return _ => True
  end.
Proof.
  unfold execute_with_retry.
  exact (retry_loop_not_locked func sleep retries delay (Z.to_nat retries) s).
Qed.

(** With a negative [delay] a locked failure is not retried: the pause
    itself fails, after the one call. *)
Theorem execute_with_retry_negative_delay {St V} (func : St -> outcome V * St)
    (sleep : Z -> St -> St) (retries delay : Z) (s s1 : St) (e : exn) :
  (delay < 0)%Z -> (0 < retries)%Z ->
  func s = (Raise e, s1) -> is_locked e = true ->
  execute_with_retry func sleep retries delay s =
    (Raise (ValueError (py "sleep length must be non-negative")), s1, [EvCall]).
Proof.
  intros Hd Hr Hf He. unfold execute_with_retry.
  destruct (Z.to_nat retries) as [|n] eqn:En; [lia|].
  simpl. rewrite Hf. destruct e as [|msg|msg|msg]; try discriminate He.
  simpl in He. rewrite He. by destruct (Z.ltb_spec delay 0); [|lia].
Qed.

Lemma execute_with_retry_negative_delay_witness :
  execute_with_retry always_locked no_sleep 5 (-1) 0%nat =
    (Raise (ValueError (py "sleep length must be non-negative")), 1%nat, [EvCall]).
Proof.
  apply (execute_with_retry_negative_delay always_locked no_sleep 5 (-1) 0%nat 1%nat
           (OperationalError (py "database is locked")));
    [lia | lia | reflexivity | reflexivity].
Defined.

(** ** store_chunks_in_db: failures *)

Lemma _store_outcome (name : pystr) (chunks : list pystr) (w : world) :
  match (_store name chunks w).1 with
  | Return _ => db (_store name chunks w).2 = committed name chunks (db w)
  | Raise _ => db (_store name chunks w).2 = db w
  end.
Proof.
  destruct w as [d busy sl]. unfold _store, committed. simpl db. simpl contention.
  destruct chunks as [|chunk chunks]; [by destruct (pdf_chunks d)|].
  destruct (pdf_chunks d) as [rows|] eqn:Hd; [|done].
  rewrite (foldl_enumerate (basename name) (chunk :: chunks) rows).
  by destruct busy as [|[] busy].
Qed.

Lemma retry_loop_store_outcome (name : pystr) (chunks : list pystr)
    (retries delay : Z) (n : nat) : forall w,
  match (retry_loop (_store name chunks) sleep_world n retries delay w).1.1 with
  | Return _ =>
      db (retry_loop (_store name chunks) sleep_world n retries delay w).1.2
      = committed name chunks (db w)
  | Raise _ =>
      db (retry_loop (_store name chunks) sleep_world n retries delay w).1.2 = db w
  end.
Proof.
  induction n as [|n IH]; intros w; [done|].
  pose proof (_store_outcome name chunks w) as Hs.
  simpl. destruct (_store name chunks w) as [[[]|e] w1]; [done|]. simpl in Hs.
  destruct e as [|msg|msg|msg]; try done.
  destruct (contains (py "locked") msg); [|done].
  destruct (Z.ltb_spec delay 0); [done|].
  specialize (IH (sleep_world delay w1)).
  destruct (retry_loop (_store name chunks) sleep_world n retries delay
              (sleep_world delay w1)) as [[r w2] log].
  simpl in *. by rewrite <- Hs.
Qed.

(** Storing is all or nothing: when [store_chunks_in_db] returns, all the
    chunks are in the table, after the rows that were there; when it
    raises, both tables are as before. *)
Theorem store_chunks_in_db_all_or_nothing (name : pystr) (chunks : list pystr)
    (w : world) :
  match (store_chunks_in_db name chunks w).1 with
  | Return _ => db (store_chunks_in_db name chunks w).2 = committed name chunks (db w)
  | Raise _ => db (store_chunks_in_db name chunks w).2 = db w
  end.
Proof.
  unfold store_chunks_in_db, execute_with_retry.
  exact (retry_loop_store_outcome name chunks 999 10 (Z.to_nat 999) w).
Qed.

Lemma _store_refused_upto (name : pystr) (chunks : list pystr) (d : database)
    (rows : list chunk_row) :
  chunks ≠ [] -> pdf_chunks d = Some rows ->
  forall (k : nat) (busy : list bool) (sl : Z),
    (k <= leading_busy busy)%nat ->
    locked_run (_store name chunks) sleep_world 10 k
      {| db := d; contention := busy; slept := sl |}
      {| db := d; contention := drop k busy; slept := (sl + 10 * Z.of_nat k)%Z |}.
Proof.
  intros Hne Hd k. induction k as [|k IH]; intros busy sl Hk.
  - simpl. rewrite Z.add_0_r. constructor.
  - destruct busy as [|[] busy]; simpl in Hk; [lia| |lia].
    apply (locked_run_S _ _ _ _ _ (OperationalError (py "database is locked"))
             {| db := d; contention := busy; slept := sl |}).
    + destruct chunks; [done|]. simpl. by rewrite Hd.
    + reflexivity.
    + specialize (IH busy (sl + 10)%Z ltac:(lia)). simpl drop.
      replace (sl + 10 * Z.of_nat (S k))%Z with (sl + 10 + 10 * Z.of_nat k)%Z by lia.
      exact IH.
Qed.

(** When the store refuses 999 attempts in a row, [store_chunks_in_db]
    gives up with the executor's own exception after 9990 seconds of
    pauses, and no row is written. *)
Theorem store_chunks_in_db_gives_up (name : pystr) (chunks : list pystr) (w : world)
    (rows : list chunk_row) :
  chunks ≠ [] ->
  pdf_chunks (db w) = Some rows ->
  (999 <= leading_busy (contention w))%nat ->
  store_chunks_in_db name chunks w =
    (Raise (PyException (py "Failed to execute after 999 retries")),
     {| db := db w; contention := drop 999 (contention w);
        slept := (slept w + 9990)%Z |}).
Proof.
  intros Hne Hd Hk. destruct w as [d busy sl]. simpl in *.
  unfold store_chunks_in_db, execute_with_retry.
  pose proof (_store_refused_upto name chunks d rows Hne Hd 999 busy sl Hk) as Hrun.
  pose proof (retry_loop_locked (_store name chunks) sleep_world 999 10 999 _ _
                ltac:(lia) Hrun 0) as Hloop.
  change (Z.to_nat 999) with (999 + 0)%nat. rewrite Hloop. reflexivity.
Qed.

Lemma store_chunks_in_db_gives_up_witness :
  store_chunks_in_db (py "a.pdf") [py "one"]
    {| db := empty_db; contention := replicate 1000 true; slept := 0 |} =
    (Raise (PyException (py "Failed to execute after 999 retries")),
     {| db := empty_db; contention := [true]; slept := 9990 |}).
Proof.
  apply (store_chunks_in_db_gives_up (py "a.pdf") [py "one"]
           {| db := empty_db; contention := replicate 1000 true; slept := 0 |} []).
  - discriminate.
  - reflexivity.
  - vm_compute. lia.
Defined.

(** Without the chunk table the first attempt fails, the failure is not
    retried, and the caller gets the store's error; nothing changes. *)
Theorem store_chunks_in_db_no_table (name : pystr) (chunks : list pystr) (w : world) :
  chunks ≠ [] ->
  pdf_chunks (db w) = None ->
  execute_with_retry (_store name chunks) sleep_world 999 10 w =
    (Raise (OperationalError (py "no such table: pdf_chunks")), w, [EvCall])
  ∧ store_chunks_in_db name chunks w =
    (Raise (OperationalError (py "no such table: pdf_chunks")), w).
Proof.
  intros Hne Hd.
  assert (execute_with_retry (_store name chunks) sleep_world 999 10 w =
    (Raise (OperationalError (py "no such table: pdf_chunks")), w, [EvCall])) as H.
  { apply (execute_with_retry_settles (_store name chunks) sleep_world 999 10 0 w w w);
      [lia | lia | constructor | | by intros e [= <-]].
    destruct chunks; [done|]. unfold _store. by rewrite Hd. }
  split; [done|]. unfold store_chunks_in_db. by rewrite H.
Qed.

Lemma store_chunks_in_db_no_table_witness :
  store_chunks_in_db (py "a.pdf") [py "one"]
    {| db := {| pdf_chunks := None; word_frequencies := None |};
       contention := [true]; slept := 0 |} =
    (Raise (OperationalError (py "no such table: pdf_chunks")),
     {| db := {| pdf_chunks := None; word_frequencies := None |};
        contention := [true]; slept := 0 |}).
Proof.
  apply (store_chunks_in_db_no_table (py "a.pdf") [py "one"]
           {| db := {| pdf_chunks := None; word_frequencies := None |};
              contention := [true]; slept := 0 |}).
  - discriminate.
  - reflexivity.
Defined.

(** ** Ingestion *)

Lemma setup_database_chunks (reset_db : bool) (d : database) :
  pdf_chunks (setup_database reset_db d)
  = Some (if reset_db then []
          else match pdf_chunks d with Some rows => rows | None => [] end).
Proof. by destruct reset_db, d as [[rows|] [table|]]. Qed.

Lemma setup_database_frequencies (reset_db : bool) (d : database) :
  word_frequencies (setup_database reset_db d)
  = Some (if reset_db then ∅
          else match word_frequencies d with Some table => table | None => ∅ end).
Proof. by destruct reset_db, d as [[rows|] [table|]]. Qed.

Lemma task_outcome (extract : pystr -> pystr) (split_chunks : pystr -> Z -> list pystr)
    (pdf_file : pystr) (chunk_size : Z) (w : world) (rows : list chunk_row) :
  pdf_chunks (db w) = Some rows ->
  db (extract_split_and_store_pdf extract split_chunks pdf_file chunk_size w) = db w
  ∨ db (extract_split_and_store_pdf extract split_chunks pdf_file chunk_size w)
    = {| pdf_chunks :=
           Some (rows ++ document_rows extract split_chunks chunk_size pdf_file);
         word_frequencies := word_frequencies (db w) |}.
Proof.
  intros Hd. unfold extract_split_and_store_pdf, document_rows.
  destruct (truthy (extract pdf_file)); simpl; [|by left].
  destruct (split_chunks (extract pdf_file) chunk_size) as [|chunk chunks] eqn:Ec;
    simpl; [by left|].
  pose proof (retry_loop_store_outcome pdf_file (chunk :: chunks) 999 10
                (Z.to_nat 999) w) as Hs.
  unfold store_chunks_in_db, execute_with_retry.
  destruct (retry_loop (_store pdf_file (chunk :: chunks)) sleep_world
              (Z.to_nat 999) 999 10 w) as [[[[]|e] w1] log]; simpl in *.
  - right. rewrite Hs. unfold committed. by rewrite Hd.
  - by left.
Qed.

Lemma tasks_append (extract : pystr -> pystr)
    (split_chunks : pystr -> Z -> list pystr) (chunk_size : Z) (schedule : list pystr) :
  forall (w0 : world) (rows : list chunk_row),
    pdf_chunks (db w0) = Some rows ->
    exists stored,
      sublist stored schedule
      ∧ pdf_chunks (db (foldl (fun w pdf_file =>
          extract_split_and_store_pdf extract split_chunks pdf_file chunk_size w)
          w0 schedule))
        = Some (rows ++ flat_map (document_rows extract split_chunks chunk_size) stored)
      ∧ word_frequencies (db (foldl (fun w pdf_file =>
          extract_split_and_store_pdf extract split_chunks pdf_file chunk_size w)
          w0 schedule))
        = word_frequencies (db w0).
Proof.
  induction schedule as [|pdf_file schedule IH]; intros w0 rows Hd.
  - exists []. simpl. by rewrite app_nil_r.
  - simpl.
    destruct (task_outcome extract split_chunks pdf_file chunk_size w0 rows Hd)
      as [Hsame|Hnew].
    + destruct (IH (extract_split_and_store_pdf extract split_chunks pdf_file
                      chunk_size w0) rows) as (stored & Hsub & Hp & Hw).
      { by rewrite Hsame. }
      exists stored. split; [by apply sublist_cons|]. split; [done|].
      by rewrite Hw, Hsame.
    + destruct (IH (extract_split_and_store_pdf extract split_chunks pdf_file
                      chunk_size w0)
                   (rows ++ document_rows extract split_chunks chunk_size pdf_file))
        as (stored & Hsub & Hp & Hw).
      { by rewrite Hnew. }
      exists (pdf_file :: stored). split; [by apply sublist_skip|].
      split; [simpl; by rewrite Hp, <- app_assoc|]. by rewrite Hw, Hnew.
Qed.

(** Whatever the contention, a run stores a sub-sequence of the scheduled
    files, each with all its chunks numbered from 0 or not at all, after
    the rows it found; no row is removed or changed, and the frequency
    table is left alone. *)
Theorem process_files_in_parallel_appends (extract : pystr -> pystr)
    (split_chunks : pystr -> Z -> list pystr) (schedule : list pystr)
    (reset_db : bool) (chunk_size : Z) (w : world) :
  exists stored,
    sublist stored schedule
    ∧ pdf_chunks (db (process_files_in_parallel extract split_chunks schedule
                        reset_db chunk_size w))
      = Some ((if reset_db then []
               else match pdf_chunks (db w) with Some rows => rows | None => [] end)
              ++ flat_map (document_rows extract split_chunks chunk_size) stored)
    ∧ word_frequencies (db (process_files_in_parallel extract split_chunks schedule
                              reset_db chunk_size w))
      = Some (if reset_db then ∅
              else match word_frequencies (db w) with
                   | Some table => table
                   | None => ∅
                   end).
Proof.
  unfold process_files_in_parallel.
  destruct (tasks_append extract split_chunks chunk_size schedule
              (set_db w (setup_database reset_db (db w))) _
              (setup_database_chunks reset_db (db w))) as (stored & Hsub & Hp & Hw).
  exists stored. split; [done|]. split; [done|].
  rewrite Hw. apply setup_database_frequencies.
Qed.





(** ** Batches *)

Lemma concat_windows {A} (l : list A) (b k : nat) :
  concat (map (fun i => take b (drop (i * b) l)) (seq 0 k)) = take (k * b) l.
Proof.
  induction k as [|k IH]; [done|].
  rewrite seq_S, map_app, concat_app, IH. simpl.
  rewrite app_nil_r, take_take_drop. f_equal. lia.
Qed.

Lemma retrieve_windows (d : database) (rows : list chunk_row) (batch_size : Z) :
  (0 < batch_size)%Z -> pdf_chunks d = Some rows ->
  retrieve_chunks_in_batches d batch_size =
    Return (map (fun i => take (Z.to_nat batch_size)
                            (drop (i * Z.to_nat batch_size) (map chunk_text rows)))
                (seq 0 (Z.to_nat (if (0 <? Z.of_nat (length rows))%Z
                                  then (Z.of_nat (length rows) - 1) / batch_size + 1
                                  else 0)%Z))).
Proof.
  intros Hb Hd. unfold retrieve_chunks_in_batches, py_range. rewrite Hd.
  destruct (Z.eqb_spec batch_size 0); [lia|].
  destruct (Z.ltb_spec 0 batch_size); [|lia].
  rewrite bind_Return. unfold mret, outcome_ret. f_equal.
  rewrite Z.sub_0_r, map_map. apply map_ext. intros i.
  unfold limit_offset. destruct (Z.ltb_spec batch_size 0); [lia|].
  do 2 f_equal. lia.
Qed.

Lemma windows_cover {A} (l : list A) (batch_size : Z) :
  (0 < batch_size)%Z ->
  concat (map (fun i => take (Z.to_nat batch_size) (drop (i * Z.to_nat batch_size) l))
              (seq 0 (Z.to_nat (if (0 <? Z.of_nat (length l))%Z
                                then (Z.of_nat (length l) - 1) / batch_size + 1
                                else 0)%Z))) = l
  ∧ Forall (fun b => b ≠ [] ∧ (Z.of_nat (length b) <= batch_size)%Z)
      (map (fun i => take (Z.to_nat batch_size) (drop (i * Z.to_nat batch_size) l))
           (seq 0 (Z.to_nat (if (0 <? Z.of_nat (length l))%Z
                             then (Z.of_nat (length l) - 1) / batch_size + 1
                             else 0)%Z))).
Proof.
  intros Hb. set (n := length l).
  set (k := Z.to_nat (if (0 <? Z.of_nat n)%Z
                      then (Z.of_nat n - 1) / batch_size + 1 else 0)%Z).
  assert (Hk : (n <= k * Z.to_nat batch_size)%nat
               ∧ forall i, (i < k)%nat -> (i * Z.to_nat batch_size < n)%nat).
  { subst k. destruct (Z.ltb_spec 0 (Z.of_nat n)) as [Hn|Hn].
    - pose proof (Z.div_mod (Z.of_nat n - 1) batch_size ltac:(lia)) as Hdm.
      pose proof (Z.mod_pos_bound (Z.of_nat n - 1) batch_size Hb) as Hm.
      pose proof (Z.div_pos (Z.of_nat n - 1) batch_size ltac:(lia) Hb) as Hq.
      split; [nia|]. intros i Hi. nia.
    - split; [lia|]. intros i Hi. simpl in Hi. lia. }
  destruct Hk as [Hcover Hstart]. split.
  - rewrite concat_windows. apply take_ge. fold n. lia.
  - apply Forall_forall. intros b Hin.
    apply list_elem_of_fmap in Hin as (i & -> & Hi).
    apply list_elem_of_In, in_seq in Hi. specialize (Hstart i ltac:(lia)).
    assert (length (take (Z.to_nat batch_size) (drop (i * Z.to_nat batch_size) l))
            = Nat.min (Z.to_nat batch_size) (n - i * Z.to_nat batch_size)) as Hlen
      by (by rewrite length_take, length_drop).
    split; [|lia]. intros E. rewrite E in Hlen. simpl in Hlen. lia.
Qed.

(** For a positive batch size the batches are the chunk texts of the
    table, in order, cut into runs: put together they give every text
    once; no batch is empty and none is longer than the batch size. *)
Theorem retrieve_chunks_in_batches_partition (d : database) (rows : list chunk_row)
    (batch_size : Z) :
  (0 < batch_size)%Z -> pdf_chunks d = Some rows ->
  exists batches,
    retrieve_chunks_in_batches d batch_size = Return batches
    ∧ concat batches = map chunk_text rows
    ∧ Forall (fun b => b ≠ [] ∧ (Z.of_nat (length b) <= batch_size)%Z) batches.
Proof.
  intros Hb Hd. eexists. split; [by apply retrieve_windows|].
  rewrite <- (length_map chunk_text rows).
  apply (windows_cover (map chunk_text rows) batch_size Hb).
Qed.

Lemma retrieve_chunks_in_batches_partition_witness :
  exists batches,
    retrieve_chunks_in_batches split_word_db 1 = Return batches
    ∧ concat batches = [py "hello wor"; py "ld this is"]
    ∧ Forall (fun b => b ≠ [] ∧ (Z.of_nat (length b) <= 1)%Z) batches.
Proof.
  apply (retrieve_chunks_in_batches_partition split_word_db
           [row "a.pdf" 0 "hello wor"; row "a.pdf" 1 "ld this is"] 1);
    [lia | reflexivity].
Defined.

(** A batch size of zero makes the aggregation fail on the range of
    offsets; a negative one makes that range empty, so that the
    aggregation returns the empty map and stores nothing, whatever the
    chunk table holds. *)
Theorem process_chunks_in_batches_batch_size (U : unicode_data) (d : database)
    (rows : list chunk_row) (batch_size : Z) :
  pdf_chunks d = Some rows -> (batch_size <= 0)%Z ->
  process_chunks_in_batches U d batch_size =
    if (batch_size =? 0)%Z
    then Raise (ValueError (py "range() arg 3 must not be zero"))
    else Return (∅, d).
Proof.
  intros Hd Hb. unfold process_chunks_in_batches, retrieve_chunks_in_batches, py_range.
  rewrite Hd. destruct (Z.eqb_spec batch_size 0); [done|].
  destruct (Z.ltb_spec 0 batch_size); [lia|].
  destruct (Z.ltb_spec (Z.of_nat (length rows)) 0); [lia|].
  reflexivity.
Qed.

Lemma process_chunks_in_batches_batch_size_witness :
  process_chunks_in_batches ascii_data split_word_db (-1) = Return (∅, split_word_db)
  ∧ process_chunks_in_batches ascii_data split_word_db 0
    = Raise (ValueError (py "range() arg 3 must not be zero")).
Proof.
  split.
  - apply (process_chunks_in_batches_batch_size ascii_data split_word_db
             [row "a.pdf" 0 "hello wor"; row "a.pdf" 1 "ld this is"] (-1));
      [reflexivity | lia].
  - apply (process_chunks_in_batches_batch_size ascii_data split_word_db
             [row "a.pdf" 0 "hello wor"; row "a.pdf" 1 "ld this is"] 0);
      [reflexivity | lia].
Defined.

(** ** merge_split_words: shape of the result *)

Lemma merge_loop_unchanged (U : unicode_data) (chunks : list pystr) :
  Forall (fun chunk => exists c, last chunk = Some c
                                 ∧ isspace c || isalpha U c = true) chunks ->
  forall merged, merge_loop U chunks merged [] = Return (merged ++ chunks, []).
Proof.
  induction 1 as [|chunk chunks (c & Hl & Hc) _ IH]; intros merged.
  - simpl. by rewrite app_nil_r.
  - simpl. unfold merge_step. simpl truthy. cbv iota beta.
    rewrite (item_last_Some _ _ Hl), bind_Return.
    replace (negb (isspace c) && negb (isalpha U c))
      with (negb (isspace c || isalpha U c)) by apply negb_orb.
    rewrite Hc. simpl. rewrite IH. by rewrite <- app_assoc.
Qed.

(** A batch whose chunks all end in white space or in a letter comes back
    from the merge as it is. *)
Theorem merge_split_words_unchanged (U : unicode_data) (chunks : list pystr) :
  Forall (fun chunk => exists c, last chunk = Some c
                                 ∧ isspace c || isalpha U c = true) chunks ->
  merge_split_words U chunks = Return chunks.
Proof.
  intros H. unfold merge_split_words. by rewrite (merge_loop_unchanged U chunks H).
Qed.

Lemma merge_split_words_unchanged_witness :
  merge_split_words ascii_data [py "hello wor"; py "ld this is "; py "x"]
  = Return [py "hello wor"; py "ld this is "; py "x"].
Proof.
  apply (merge_split_words_unchanged ascii_data).
  repeat constructor.
  - by exists 114.
  - by exists 32.
  - by exists 120.
Defined.

Lemma merge_step_shape (U : unicode_data) (merged merged' : list pystr)
    (buffer buffer' chunk : pystr) :
  merge_step U merged buffer chunk = Return (merged', buffer') ->
  length merged' = S (length merged)
  ∧ Forall (fun c => isspace c = false) buffer'.
Proof.
  unfold merge_step.
  assert (exists chunk' buffer0,
    (if truthy buffer then (buffer ++ chunk, []) else (chunk, buffer))
      = (chunk', buffer0) ∧ buffer0 = []) as (chunk' & buffer0 & -> & ->).
  { destruct buffer; simpl; eauto. }
  destruct (item_last chunk') as [c|e]; [|done]. rewrite bind_Return.
  destruct (negb (isspace c) && negb (isalpha U c)).
  - unfold item_last. destruct (last (split chunk')) as [t|] eqn:Ht; [|done].
    rewrite bind_Return.
    destruct (item_first (rsplit1 SPACE chunk')) as [a|e]; [|done].
    rewrite bind_Return. intros [= <- <-]. split.
    + rewrite length_app. simpl. lia.
    + apply last_Some_elem_of in Ht.
      pose proof (split_from_tokens chunk' [] (Forall_nil_2 _)) as Hall.
      rewrite Forall_forall in Hall. by apply Hall in Ht as [_ ?].
  - intros [= <- <-]. split; [|done]. rewrite length_app. simpl. lia.
Qed.

Lemma merge_loop_shape (U : unicode_data) (chunks : list pystr) :
  forall (merged merged' : list pystr) (buffer buffer' : pystr),
    Forall (fun c => isspace c = false) buffer ->
    merge_loop U chunks merged buffer = Return (merged', buffer') ->
    length merged' = (length merged + length chunks)%nat
    ∧ Forall (fun c => isspace c = false) buffer'.
Proof.
  induction chunks as [|chunk chunks IH]; intros merged merged' buffer buffer' Hb H.
  - simpl in H. injection H as <- <-. split; [simpl; lia|done].
  - simpl in H.
    destruct (merge_step U merged buffer chunk) as [[m1 b1]|e] eqn:Hs; [|done].
    rewrite bind_Return in H. apply merge_step_shape in Hs as [Hlen Hb1].
    destruct (IH _ _ _ _ Hb1 H) as [Hlen' Hb']. split; [simpl; lia|done].
Qed.

(** The merge gives one element per chunk, and at most one more: the
    buffer left at the end of the batch, a non-empty run without white
    space. *)
Theorem merge_split_words_length (U : unicode_data) (chunks out : list pystr) :
  merge_split_words U chunks = Return out ->
  length out = length chunks
  ∨ (length out = S (length chunks)
     ∧ exists t, last out = Some t ∧ t ≠ []
                 ∧ Forall (fun c => isspace c = false) t).
Proof.
  unfold merge_split_words. intros H.
  destruct (merge_loop U chunks [] []) as [[merged buffer]|e] eqn:Hl; [|done].
  rewrite bind_Return in H. injection H as <-.
  destruct (merge_loop_shape U chunks [] merged [] buffer (Forall_nil_2 _) Hl)
    as [Hlen Hb].
  destruct buffer as [|c buffer]; simpl truthy; cbv iota; [by left|].
  right. split; [rewrite length_app; simpl in *; lia|].
  exists (c :: buffer). by rewrite last_snoc.
Qed.

Lemma merge_split_words_length_witness :
  length [py "see"; py "fig.12"; py "fig.12"] = length [py "see fig."; py "12"]
  ∨ (length [py "see"; py "fig.12"; py "fig.12"] = S (length [py "see fig."; py "12"])
     ∧ exists t, last [py "see"; py "fig.12"; py "fig.12"] = Some t ∧ t ≠ []
                 ∧ Forall (fun c => isspace c = false) t).
Proof.
  apply (merge_split_words_length ascii_data [py "see fig."; py "12"]).
  reflexivity.
Defined.

(** ** Counting *)

Lemma occurrences_cons (w x : pystr) (l : list pystr) :
  occurrences w (x :: l)
  = ((if bool_decide (x = w) then 1 else 0) + occurrences w l)%Z.
Proof. unfold occurrences. simpl. destruct (bool_decide (x = w)); simpl; lia. Qed.

Lemma occurrences_nonneg (w : pystr) (l : list pystr) : (0 <= occurrences w l)%Z.
Proof. unfold occurrences. lia. Qed.

Lemma occurrences_app (w : pystr) (l1 l2 : list pystr) :
  occurrences w (l1 ++ l2) = (occurrences w l1 + occurrences w l2)%Z.
Proof. unfold occurrences. rewrite List.filter_app, length_app. lia. Qed.

Lemma occurrences_Permutation (w : pystr) (l1 l2 : list pystr) :
  Permutation l1 l2 -> occurrences w l1 = occurrences w l2.
Proof.
  induction 1 as [|x l1 l2 _ IH|x y l|l1 l2 l3 _ IH1 _ IH2].
  - done.
  - by rewrite !occurrences_cons, IH.
  - rewrite !occurrences_cons. lia.
  - by rewrite IH1.
Qed.

Lemma foldl_count_word_lookup (words : list pystr) : forall (wf : gmap pystr Z) (w : pystr),
  foldl count_word wf words !! w
  = if (occurrences w words =? 0)%Z then wf !! w
    else Some (default 0 (wf !! w) + occurrences w words)%Z.
Proof.
  induction words as [|x words IH]; intros wf w; [done|].
  simpl. rewrite IH, occurrences_cons. unfold count_word. rewrite lookup_insert.
  pose proof (occurrences_nonneg w words) as Hn.
  destruct (decide (x = w)) as [->|Hx].
  - rewrite bool_decide_eq_true_2 by done.
    destruct (Z.eqb_spec (occurrences w words) 0) as [E|E];
      (destruct (Z.eqb_spec (1 + occurrences w words) 0); [lia|]);
      simpl; f_equal; lia.
  - rewrite bool_decide_eq_false_2 by done. by rewrite Z.add_0_l.
Qed.

Lemma foldl_count_chunk (U : unicode_data) (merged : list pystr) :
  forall wf : gmap pystr Z,
    foldl (count_chunk U) wf merged
    = foldl count_word wf (concat (map (clean_text U) merged)).
Proof.
  induction merged as [|chunk merged IH]; intros wf; [done|].
  simpl. rewrite foldl_app. apply IH.
Qed.

Lemma count_batches_words (U : unicode_data) (batches : list (list pystr)) :
  forall wf : gmap pystr Z,
    count_batches U wf batches
    = match words_visited U batches with
      | Return words => Return (foldl count_word wf words)
      | Raise e => Raise e
      end.
Proof.
  induction batches as [|b batches IH]; intros wf; [done|].
  simpl. unfold count_batch.
  destruct (merge_split_words U b) as [merged|e]; [|done].
  rewrite !bind_Return, IH.
  destruct (words_visited U batches) as [words|e]; [|done].
  rewrite bind_Return. unfold mret, outcome_ret.
  by rewrite foldl_count_chunk, foldl_app.
Qed.

Lemma process_chunks_in_batches_inv (U : unicode_data) (d d' : database)
    (batch_size : Z) (counts : gmap pystr Z) :
  process_chunks_in_batches U d batch_size = Return (counts, d') ->
  exists batches words,
    retrieve_chunks_in_batches d batch_size = Return batches
    ∧ words_visited U batches = Return words
    ∧ counts = foldl count_word ∅ words
    ∧ store_frequencies counts d = Return d'.
Proof.
  unfold process_chunks_in_batches. intros H.
  destruct (retrieve_chunks_in_batches d batch_size) as [batches|e] eqn:Hb; [|done].
  rewrite bind_Return, count_batches_words in H.
  destruct (words_visited U batches) as [words|e] eqn:Hw; [|done].
  rewrite bind_Return in H.
  destruct (store_frequencies (foldl count_word ∅ words) d) as [d0|e] eqn:Hs; [|done].
  rewrite bind_Return in H. injection H as <- <-. by exists batches, words.
Qed.

(** The map that the aggregation returns counts occurrences: the count of
    a word is the number of times the tokenizer yields it over the merged
    chunks of all batches, and a word it never yields is no key. *)
Theorem process_chunks_in_batches_counts (U : unicode_data) (d d' : database)
    (batch_size : Z) (counts : gmap pystr Z) :
  process_chunks_in_batches U d batch_size = Return (counts, d') ->
  exists batches words,
    retrieve_chunks_in_batches d batch_size = Return batches
    ∧ words_visited U batches = Return words
    ∧ forall w, counts !! w
                = if (occurrences w words =? 0)%Z then None
                  else Some (occurrences w words).
Proof.
  intros H. apply process_chunks_in_batches_inv in H
    as (batches & words & Hb & Hw & -> & _).
  exists batches, words. split; [done|]. split; [done|]. intros w.
  rewrite foldl_count_word_lookup, lookup_empty. simpl.
  by destruct (Z.eqb_spec (occurrences w words) 0).
Qed.

Lemma process_chunks_in_batches_counts_witness :
  exists batches words,
    retrieve_chunks_in_batches split_word_db 1000 = Return batches
    ∧ words_visited ascii_data batches = Return words
    ∧ forall w, split_word_counts !! w
                = if (occurrences w words =? 0)%Z then None
                  else Some (occurrences w words).
Proof.
  apply (process_chunks_in_batches_counts ascii_data split_word_db
           {| pdf_chunks := pdf_chunks split_word_db;
              word_frequencies := Some split_word_counts |} 1000 split_word_counts).
  by vm_compute.
Defined.

Lemma merge_split_words_raise (U : unicode_data) (chunks : list pystr) (e : exn) :
  merge_split_words U chunks = Raise e -> e = IndexError.
Proof.
  unfold merge_split_words.
  destruct (merge_loop U chunks [] []) as [[m b]|e'] eqn:H; [done|].
  simpl. intros [= <-]. by apply merge_loop_raise in H as [-> _].
Qed.

Lemma words_visited_raise (U : unicode_data) (batches : list (list pystr)) (e : exn) :
  words_visited U batches = Raise e -> e = IndexError.
Proof.
  induction batches as [|b batches IH]; [done|]. simpl.
  destruct (merge_split_words U b) as [m|e1] eqn:Hm.
  - rewrite bind_Return. destruct (words_visited U batches) as [ws|e2]; [done|].
    simpl. intros [= <-]. by apply IH.
  - simpl. intros [= <-]. by apply merge_split_words_raise in Hm.
Qed.

Lemma words_visited_cons (U : unicode_data) (b : list pystr)
    (batches : list (list pystr)) :
  words_visited U (b :: batches)
  = match merge_split_words U b, words_visited U batches with
    | Return merged, Return words =>
        Return (concat (map (clean_text U) merged) ++ words)
    | Return _, Raise _ => Raise IndexError
    | Raise _, _ => Raise IndexError
    end.
Proof.
  simpl. destruct (merge_split_words U b) as [m|e1] eqn:Hm.
  - rewrite bind_Return. destruct (words_visited U batches) as [ws|e2] eqn:Hw; [done|].
    simpl. by apply words_visited_raise in Hw as ->.
  - simpl. by apply merge_split_words_raise in Hm as ->.
Qed.

Lemma words_visited_Permutation (U : unicode_data) (b1 b2 : list (list pystr)) :
  Permutation b1 b2 ->
  (words_visited U b1 = Raise IndexError ∧ words_visited U b2 = Raise IndexError)
  ∨ exists l1 l2, words_visited U b1 = Return l1 ∧ words_visited U b2 = Return l2
                  ∧ Permutation l1 l2.
Proof.
  induction 1 as [|x l1 l2 _ IH|x y l|l1 l2 l3 _ IH1 _ IH2].
  - right. by exists [], [].
  - rewrite !words_visited_cons.
    destruct (merge_split_words U x) as [m|e]; [|by left].
    destruct IH as [[-> ->]|(w1 & w2 & -> & -> & Hp)]; [by left|].
    right. eexists _, _. split; [done|]. split; [done|]. by apply Permutation_app_head.
  - rewrite !words_visited_cons.
    destruct (merge_split_words U x) as [mx|ex], (merge_split_words U y) as [my|ey],
      (words_visited U l) as [ws|e]; try (by left).
    right. eexists _, _. split; [done|]. split; [done|].
    rewrite !app_assoc. apply Permutation_app_tail, Permutation_app_comm.
  - destruct IH1 as [[H1 H2]|(w1 & w2 & H1 & H2 & Hp)],
      IH2 as [[H3 H4]|(w3 & w4 & H3 & H4 & Hp')]; try congruence.
    + by left.
    + right. exists w1, w4. split; [done|]. split; [done|].
      rewrite H2 in H3. injection H3 as ->. by etrans.
Qed.

(** The counting does not depend on the order of the batches: the same
    batches in another order give the same map, or fail alike. *)
Theorem count_batches_Permutation (U : unicode_data) (wf : gmap pystr Z)
    (batches1 batches2 : list (list pystr)) :
  Permutation batches1 batches2 ->
  count_batches U wf batches1 = count_batches U wf batches2.
Proof.
  intros Hp. rewrite !count_batches_words.
  destruct (words_visited_Permutation U batches1 batches2 Hp)
    as [[-> ->]|(w1 & w2 & -> & -> & Hw)]; [done|].
  f_equal. apply map_eq. intros w. rewrite !foldl_count_word_lookup.
  by rewrite (occurrences_Permutation w w1 w2 Hw).
Qed.

Lemma count_batches_Permutation_witness :
  count_batches ascii_data ∅ [[py "a b."; py "c"]; [py "d a"]]
  = count_batches ascii_data ∅ [[py "d a"]; [py "a b."; py "c"]].
Proof.
  apply (count_batches_Permutation ascii_data ∅). apply perm_swap.
Defined.

(** ** Aggregating and reading back *)

Lemma upsert_frequencies_empty (table : gmap pystr Z) :
  upsert_frequencies ∅ table = table.
Proof. apply map_eq. intros w. by rewrite upsert_frequencies_lookup, lookup_empty. Qed.

Lemma upsert_frequencies_fresh (counts : gmap pystr Z) :
  upsert_frequencies counts ∅ = counts.
Proof.
  apply map_eq. intros w. rewrite upsert_frequencies_lookup, lookup_empty.
  by destruct (counts !! w).
Qed.

Lemma store_frequencies_table (counts table : gmap pystr Z) (d : database) :
  word_frequencies d = Some table ->
  store_frequencies counts d =
    Return {| pdf_chunks := pdf_chunks d;
              word_frequencies := Some (upsert_frequencies counts table) |}.
Proof.
  intros Ht. unfold store_frequencies. destruct (decide (counts = ∅)) as [->|_].
  - rewrite upsert_frequencies_empty. destruct d. simpl in *. by rewrite Ht.
  - by rewrite Ht.
Qed.

Lemma retrieve_same_chunks (d d' : database) (batch_size : Z) :
  pdf_chunks d' = pdf_chunks d ->
  retrieve_chunks_in_batches d' batch_size = retrieve_chunks_in_batches d batch_size.
Proof. unfold retrieve_chunks_in_batches. by intros ->. Qed.

(** Aggregating a second time over the same chunks returns the same map
    and adds every count to the stored frequencies once more: nothing
    remembers that the chunks were counted. *)
Theorem process_chunks_in_batches_twice (U : unicode_data) (d d1 : database)
    (batch_size : Z) (counts table : gmap pystr Z) :
  word_frequencies d = Some table ->
  process_chunks_in_batches U d batch_size = Return (counts, d1) ->
  exists table2,
    process_chunks_in_batches U d1 batch_size
    = Return (counts, {| pdf_chunks := pdf_chunks d;
                         word_frequencies := Some table2 |})
    ∧ forall w, table2 !! w
                = match counts !! w with
                  | Some n => Some (default 0 (table !! w) + 2 * n)%Z
                  | None => table !! w
                  end.
Proof.
  intros Ht H. apply process_chunks_in_batches_inv in H
    as (batches & words & Hb & Hw & Hc & Hs).
  rewrite (store_frequencies_table counts table d Ht) in Hs. injection Hs as <-.
  exists (upsert_frequencies counts (upsert_frequencies counts table)). split.
  - unfold process_chunks_in_batches.
    rewrite (retrieve_same_chunks d _ batch_size) by done.
    rewrite Hb, bind_Return, count_batches_words, Hw, bind_Return, <- Hc.
    by rewrite (store_frequencies_table counts (upsert_frequencies counts table)).
  - intros w. rewrite !upsert_frequencies_lookup.
    destruct (counts !! w) as [n|]; [|done].
    destruct (table !! w) as [m|]; simpl; f_equal; lia.
Qed.

Lemma process_chunks_in_batches_twice_witness :
  exists table2,
    process_chunks_in_batches ascii_data
      {| pdf_chunks := pdf_chunks split_word_db;
         word_frequencies := Some split_word_counts |} 1000
    = Return (split_word_counts,
              {| pdf_chunks := pdf_chunks split_word_db;
                 word_frequencies := Some table2 |})
    ∧ forall w, table2 !! w
                = match split_word_counts !! w with
                  | Some n => Some (default 0 ((∅ : gmap pystr Z) !! w) + 2 * n)%Z
                  | None => (∅ : gmap pystr Z) !! w
                  end.
Proof.
  apply (process_chunks_in_batches_twice ascii_data split_word_db _ 1000
           split_word_counts ∅).
  - reflexivity.
  - by vm_compute.
Defined.

(** After an aggregation into an empty frequency table, reading the table
    back gives one pair per key of the returned map, with its count, and
    nothing else. *)
Theorem retrive_word_frequencies_after (U : unicode_data) (d d' : database)
    (batch_size : Z) (counts : gmap pystr Z) :
  word_frequencies d = Some ∅ ->
  process_chunks_in_batches U d batch_size = Return (counts, d') ->
  exists pairs,
    retrive_word_frequencies d' = Return pairs
    ∧ NoDup pairs.*1
    ∧ forall w n, (w, n) ∈ pairs ↔ counts !! w = Some n.
Proof.
  intros Ht H. apply process_chunks_in_batches_inv in H as (_ & _ & _ & _ & _ & Hs).
  rewrite (store_frequencies_table counts ∅ d Ht) in Hs. injection Hs as <-.
  rewrite upsert_frequencies_fresh. exists (map_to_list counts).
  split; [done|]. split; [apply NoDup_fst_map_to_list|].
  intros w n. apply elem_of_map_to_list.
Qed.

Lemma retrive_word_frequencies_after_witness :
  exists pairs,
    retrive_word_frequencies
      {| pdf_chunks := pdf_chunks split_word_db;
         word_frequencies := Some split_word_counts |} = Return pairs
    ∧ NoDup pairs.*1
    ∧ forall w n, (w, n) ∈ pairs ↔ split_word_counts !! w = Some n.
Proof.
  apply (retrive_word_frequencies_after ascii_data split_word_db _ 1000
           split_word_counts).
  - reflexivity.
  - by vm_compute.
Defined.

(** ** clean_text: composition *)

Lemma split_from_app_space (s : pystr) : forall (cur t : pystr) (c : N),
  isspace c = true ->
  split_from cur (s ++ c :: t) = split_from cur s ++ split_from [] t.
Proof.
  induction s as [|x s IH]; intros cur t c Hc; simpl.
  - rewrite Hc. by destruct cur.
  - destruct (isspace x); [destruct (truthy cur)|]; simpl; by rewrite IH.
Qed.

Lemma tokenize_at_space (a b : pystr) (c : N) :
  isspace c = true ->
  tokenize_spec (a ++ c :: b) = tokenize_spec a ++ tokenize_spec b.
Proof.
  intros Hc. unfold tokenize_spec.
  rewrite List.filter_app. simpl.
  assert (keep_char c = true) as -> by char_arith.
  rewrite map_app. simpl.
  assert (ascii_lower c = c) as ->
    by (unfold ascii_lower; destruct (is_AZ c) eqn:E; [exfalso; char_arith|done]).
  by apply split_from_app_space.
Qed.

(** White space cuts a text cleanly: the tokens of a text with a white
    space character in it are the tokens of what is before it followed by
    the tokens of what is after it. *)
Theorem clean_text_at_space (U : unicode_data) (a b : pystr) (c : N) :
  isspace c = true ->
  clean_text U (a ++ c :: b) = clean_text U a ++ clean_text U b.
Proof.
  intros Hc. rewrite !clean_text_spec. by apply tokenize_at_space.
Qed.

Lemma clean_text_at_space_witness :
  clean_text ascii_data (py "Hello, wor" ++ 10 :: py "ld!")
  = clean_text ascii_data (py "Hello, wor") ++ clean_text ascii_data (py "ld!").
Proof.
  apply (clean_text_at_space ascii_data (py "Hello, wor") (py "ld!") 10). reflexivity.
Defined.

Lemma split_run (t : pystr) : forall cur,
  Forall (fun c => isspace c = false) t ->
  split_from cur t = if truthy (cur ++ t) then [cur ++ t] else [].
Proof.
  induction t as [|c t IH]; simpl; intros cur Ht.
  - by rewrite app_nil_r.
  - inversion Ht as [|? ? Hc Ht']; subst. rewrite Hc, IH by done.
    by rewrite <- app_assoc.
Qed.

Lemma clean_text_lower_word (U : unicode_data) (w : pystr) :
  lower_word w -> clean_text U w = [w].
Proof.
  intros [Hne Haz]. rewrite clean_text_spec. unfold tokenize_spec.
  assert (map ascii_lower (List.filter keep_char w) = w) as ->.
  { clear Hne. induction Haz as [|c w Hc _ IH]; [done|]. simpl.
    assert (keep_char c = true) as -> by char_arith. simpl. rewrite IH.
    f_equal. unfold ascii_lower.
    destruct (is_AZ c) eqn:E; [exfalso; char_arith|done]. }
  unfold split. rewrite split_run.
  - by destruct w.
  - eapply Forall_impl; [exact Haz|]. intros c Hc. simpl in Hc. char_arith.
Qed.

(** Tokens are in normal form: cleaning a token that [clean_text] has
    produced gives that token back, alone. *)
Theorem clean_text_tokens_fixed (U : unicode_data) (text : pystr) :
  Forall (fun w => clean_text U w = [w]) (clean_text U text).
Proof.
  eapply Forall_impl; [apply clean_text_words|].
  intros w Hw. by apply clean_text_lower_word.
Qed.

(** ** update_database: the run as a whole *)



(** ** merge_split_words: what the repair does *)

(** One turn on a chunk [q ++ " " ++ r] whose part [r] after the last
    space ends in the token [t]: [q] is emitted and [t] is kept. *)
Lemma merge_step_cut (U : unicode_data) (merged : list pystr) (q r p t : pystr) (c : N) :
  SPACE ∉ r ->
  r = p ++ t -> (p = [] ∨ exists p' b, p = p' ++ [b] ∧ isspace b = true) ->
  Forall (fun c => isspace c = false) t ->
  last t = Some c -> isalpha U c = false ->
  merge_step U merged [] (q ++ SPACE :: r) = Return (merged ++ [q], t).
Proof.
  intros Hr -> Hp Ht Hl Hc. unfold merge_step. simpl truthy. cbv iota beta.
  assert (t ≠ []) as Hne by (by destruct t).
  assert (last (q ++ SPACE :: p ++ t) = Some c) as Hlast.
  { replace (q ++ SPACE :: p ++ t) with ((q ++ SPACE :: p) ++ t)
      by (by rewrite <- app_assoc).
    by rewrite last_app, Hl. }
  rewrite (item_last_Some _ _ Hlast), bind_Return.
  assert (isspace c = false) as Hs.
  { apply last_Some_elem_of in Hl. rewrite Forall_forall in Ht. by apply Ht. }
  rewrite Hs, Hc. simpl andb. cbv iota.
  assert (last (split (q ++ SPACE :: p ++ t)) = Some t) as Hsplit.
  { assert (truthy t = true) as Htt by (by destruct t).
    unfold split. destruct Hp as [->|(p' & b & -> & Hb)].
    - simpl. rewrite split_from_app_space by done.
      rewrite (split_run t []) by done. simpl app. rewrite Htt.
      by rewrite last_snoc.
    - replace (q ++ SPACE :: (p' ++ [b]) ++ t) with ((q ++ SPACE :: p') ++ b :: t)
        by (rewrite <- !app_assoc; done).
      rewrite split_from_app_space by done.
      rewrite (split_run t []) by done. simpl app. rewrite Htt.
      by rewrite last_snoc. }
  rewrite (item_last_Some _ _ Hsplit), bind_Return.
  unfold rsplit1. by rewrite rcut_app.
Qed.

(** The repair: a chunk [q ++ " " ++ t] whose trailing token [t] ends in
    a character that is neither white space nor a letter gives up that
    token to the next chunk [y]: the batch comes back with [q] and
    [t ++ y] in their place, and the two elements hold the same words as
    the two chunks read as one text. *)
Theorem merge_split_words_carries (U : unicode_data) (pre post : list pystr)
    (q t y : pystr) (c : N) :
  Forall (well_ended U) pre -> Forall (well_ended U) post -> well_ended U y ->
  Forall (fun c => isspace c = false) t ->
  last t = Some c -> isalpha U c = false ->
  merge_split_words U (pre ++ (q ++ SPACE :: t) :: y :: post)
    = Return (pre ++ q :: (t ++ y) :: post)
  ∧ clean_text U q ++ clean_text U (t ++ y) = clean_text U ((q ++ SPACE :: t) ++ y).
Proof.
  intros Hpre Hpost (c' & Hy & Hc') Ht Hl Hc. split.
  - unfold merge_split_words.
    rewrite merge_loop_app, (merge_loop_unchanged U pre Hpre). simpl.
    rewrite (merge_step_cut U pre q t [] t c); try done;
      [|by apply nonspace_not_SPACE | by left].
    rewrite bind_Return. unfold merge_step.
    assert (truthy t = true) as -> by (by destruct t).
    assert (last (t ++ y) = Some c') as Hty by (by rewrite last_app, Hy).
    rewrite (item_last_Some _ _ Hty), bind_Return.
    replace (negb (isspace c') && negb (isalpha U c'))
      with (negb (isspace c' || isalpha U c')) by apply negb_orb.
    rewrite Hc'. simpl negb. cbv iota. unfold mret, outcome_ret.
    rewrite bind_Return, (merge_loop_unchanged U post Hpost), bind_Return.
    simpl. by rewrite <- !app_assoc.
  - rewrite <- app_assoc. simpl. rewrite !clean_text_spec.
    by rewrite tokenize_at_space.
Qed.

Lemma merge_split_words_carries_witness :
  merge_split_words ascii_data
    ([py "one "] ++ (py "see" ++ SPACE :: py "fig.") :: py "ure two" :: [py "three"])
    = Return ([py "one "] ++ py "see" :: (py "fig." ++ py "ure two") :: [py "three"])
  ∧ clean_text ascii_data (py "see") ++ clean_text ascii_data (py "fig." ++ py "ure two")
    = clean_text ascii_data ((py "see" ++ SPACE :: py "fig.") ++ py "ure two").
Proof.
  apply (merge_split_words_carries ascii_data [py "one "] [py "three"]
           (py "see") (py "fig.") (py "ure two") 46).
  - repeat constructor. by exists 32.
  - repeat constructor. by exists 101.
  - by exists 111.
  - repeat constructor.
  - reflexivity.
  - reflexivity.
Defined.

(** A chunk without white space that ends in a character that is not a
    letter comes out twice when it is the last of its batch: once as the
    chunk, which has no space to be cut at, and once as the buffer. *)
Theorem merge_split_words_repeats (U : unicode_data) (pre : list pystr)
    (x : pystr) (c : N) :
  Forall (well_ended U) pre ->
  Forall (fun c => isspace c = false) x ->
  last x = Some c -> isalpha U c = false ->
  merge_split_words U (pre ++ [x]) = Return (pre ++ [x; x]).
Proof.
  intros Hpre Hx Hl Hc. unfold merge_split_words.
  rewrite merge_loop_app, (merge_loop_unchanged U pre Hpre). simpl.
  unfold merge_step. simpl truthy. cbv iota beta.
  rewrite (item_last_Some _ _ Hl), bind_Return.
  assert (isspace c = false) as Hs.
  { apply last_Some_elem_of in Hl. rewrite Forall_forall in Hx. by apply Hx. }
  rewrite Hs, Hc. simpl andb. cbv iota.
  assert (x ≠ []) as Hne by (by destruct x).
  unfold split. rewrite (split_run x []) by done. simpl app.
  assert (truthy x = true) as Htx by (by destruct x). rewrite Htx.
  unfold item_last. simpl last. cbv iota. rewrite bind_Return.
  unfold rsplit1. rewrite rcut_None by by apply nonspace_not_SPACE.
  simpl. rewrite Htx. by rewrite <- app_assoc.
Qed.

Lemma merge_split_words_repeats_witness :
  merge_split_words ascii_data ([py "page "] ++ [py "12"])
  = Return ([py "page "] ++ [py "12"; py "12"]).
Proof.
  apply (merge_split_words_repeats ascii_data [py "page "] (py "12") 50).
  - repeat constructor. by exists 32.
  - repeat constructor.
  - reflexivity.
  - reflexivity.
Defined.

(** The chunk is cut at its last space, the token at its last white
    space: when a tab or a line break comes after the last space, the
    text between that space and the trailing token is in neither of the
    two elements that come out. *)
Theorem merge_split_words_drops (U : unicode_data) (pre : list pystr)
    (q m t : pystr) (b c : N) :
  Forall (well_ended U) pre ->
  SPACE ∉ m -> isspace b = true -> b ≠ SPACE ->
  Forall (fun c => isspace c = false) t ->
  last t = Some c -> isalpha U c = false ->
  merge_split_words U (pre ++ [q ++ SPACE :: m ++ b :: t]) = Return (pre ++ [q; t]).
Proof.
  intros Hpre Hm Hb Hne Ht Hl Hc. unfold merge_split_words.
  rewrite merge_loop_app, (merge_loop_unchanged U pre Hpre). simpl.
  rewrite (merge_step_cut U pre q (m ++ b :: t) (m ++ [b]) t c); try done.
  - rewrite bind_Return. simpl.
    assert (truthy t = true) as -> by (by destruct t). by rewrite <- app_assoc.
  - intros Hin. apply elem_of_app in Hin as [Hin|Hin]; [done|].
    apply elem_of_cons in Hin as [Hin|Hin]; [done|].
    by apply (nonspace_not_SPACE t).
  - by rewrite <- app_assoc.
  - right. by exists m, b.
Qed.

Lemma merge_split_words_drops_witness :
  merge_split_words ascii_data ([] ++ [py "total" ++ SPACE :: py "due" ++ 10 :: py "42"])
  = Return ([] ++ [py "total"; py "42"]).
Proof.
  apply (merge_split_words_drops ascii_data [] (py "total") (py "due") (py "42") 10 50).
  - constructor.
  - vm_compute. intros H. repeat (apply elem_of_cons in H as [H|H]; [discriminate H|]).
    by apply elem_of_nil in H.
  - reflexivity.
  - discriminate.
  - repeat constructor.
  - reflexivity.
  - reflexivity.
Defined.

(** * updateLog *)


Lemma split_sep_from_whole (sep t : pystr) :
  sep ≠ [] -> contains sep t = false ->
  forall cur, split_sep_from sep 0 cur t = [cur ++ t].
Proof.
  intros Hsep. induction t as [|c t IH]; intros Hc cur.
  - simpl. by rewrite app_nil_r.
  - simpl in Hc. apply orb_false_iff in Hc as [Hs Hc].
    change (split_sep_from sep 0 cur (c :: t)) with
      (if starts_with sep (c :: t)
       then cur :: split_sep_from sep (length sep - 1) [] t
       else split_sep_from sep 0 (cur ++ [c]) t).
    rewrite Hs, IH by done. by rewrite <- app_assoc.
Qed.


Lemma unpack3_Return (fields : list pystr) (a b c : pystr) :
  unpack3 fields = Return (a, b, c) -> fields = [a; b; c].
Proof.
  destruct fields as [|x [|y [|z [|u fields]]]]; try done.
  simpl. by intros [= -> -> ->].
Qed.

Lemma unpack3_Raise (fields : list pystr) (e : exn) :
  unpack3 fields = Raise e -> exists msg, e = ValueError msg.
Proof.
  destruct fields as [|x [|y [|z [|u fields]]]]; try done;
    simpl; intros [= <-]; eauto.
Qed.

Lemma insert_lines_Return (lines : list pystr) :
  forall rows rows',
    insert_lines lines rows = Return rows' ->
    exists new,
      rows' = rows ++ new
      ∧ Forall2 (fun line r =>
                   split_sep SEPARATOR (strip line)
                   = [timestamp r; message_type r; message r]) lines new.
Proof.
  induction lines as [|line lines IH]; intros rows rows' H.
  - simpl in H. injection H as <-. exists []. by rewrite app_nil_r.
  - simpl in H.
    destruct (unpack3 (split_sep SEPARATOR (strip line))) as [[[a b] c]|e] eqn:Hu;
      [|done].
    rewrite bind_Return in H. apply IH in H as (new & -> & Hnew).
    eexists (_ :: new). split; [by rewrite <- app_assoc|].
    constructor; [|done]. simpl. by apply unpack3_Return.
Qed.

Lemma insert_lines_Raise (lines : list pystr) :
  forall rows e, insert_lines lines rows = Raise e -> exists msg, e = ValueError msg.
Proof.
  induction lines as [|line lines IH]; intros rows e H; [done|].
  simpl in H.
  destruct (unpack3 (split_sep SEPARATOR (strip line))) as [[[a b] c]|e'] eqn:Hu.
  - rewrite bind_Return in H. by apply IH in H.
  - simpl in H. injection H as <-. by apply unpack3_Raise in Hu.
Qed.

Lemma insert_lines_bad_line (lines : list pystr) (line : pystr) :
  line ∈ lines ->
  (forall a b c, unpack3 (split_sep SEPARATOR (strip line)) ≠ Return (a, b, c)) ->
  forall rows, exists msg, insert_lines lines rows = Raise (ValueError msg).
Proof.
  intros Hin Hbad. induction lines as [|l lines IH]; intros rows.
  - by apply elem_of_nil in Hin.
  - simpl.
    destruct (unpack3 (split_sep SEPARATOR (strip l))) as [[[a b] c]|e] eqn:Hu.
    + rewrite bind_Return. apply elem_of_cons in Hin as [->|Hin].
      * by destruct (Hbad a b c).
      * by apply IH.
    + apply unpack3_Raise in Hu as [msg ->]. by exists msg.
Qed.

(** The import is all or nothing. When it returns, the table holds its
    former rows, then one row per line of the file, made of the three
    pieces of the stripped line, then the closing row, and the file is
    empty. When it raises, the table exists with its former rows only,
    and the file is as it was. *)
Theorem store_log_file_to_database_all_or_nothing (now : pystr) (s : log_store) :
  match (store_log_file_to_database now s).1 with
  | Return _ =>
      exists new,
        (store_log_file_to_database now s).2
        = {| messages :=
               Some (match messages s with Some rows => rows | None => [] end
                     ++ new ++ [finished_row now]);
             log_file := [] |}
        ∧ Forall2 (fun line r =>
                     split_sep SEPARATOR (strip line)
                     = [timestamp r; message_type r; message r]) (log_file s) new
  | Raise _ =>
      (store_log_file_to_database now s).2
      = {| messages := Some (match messages s with Some rows => rows | None => [] end);
           log_file := log_file s |}
  end.
Proof.
  unfold store_log_file_to_database.
  destruct (insert_lines (log_file s) _) as [rows|e] eqn:H; simpl; [|done].
  apply insert_lines_Return in H as (new & -> & Hnew).
  exists new. by rewrite <- app_assoc.
Qed.

(** A line without the separator " - " (a blank line, the later lines of
    a message of several lines) makes the import fail with a value
    error, wherever it stands in the file: no line of the file reaches
    the table, and the file is kept. *)
Theorem store_log_file_to_database_unseparated (now : pystr) (s : log_store)
    (line : pystr) :
  line ∈ log_file s ->
  contains SEPARATOR (strip line) = false ->
  exists msg,
    store_log_file_to_database now s
    = (Raise (ValueError msg),
       {| messages := Some (match messages s with Some rows => rows | None => [] end);
          log_file := log_file s |}).
Proof.
  intros Hin Hc. unfold store_log_file_to_database.
  destruct (insert_lines_bad_line (log_file s) line Hin) with
    (rows := match messages s with Some rows => rows | None => [] end) as [msg ->].
  - intros a b c. unfold split_sep.
    by rewrite (split_sep_from_whole SEPARATOR (strip line)).
  - by exists msg.
Qed.

Lemma store_log_file_to_database_unseparated_witness :
  exists msg,
    store_log_file_to_database (py "2024-05-18 10:00:00")
      {| messages := None;
         log_file := [py "2024-05-18 09:00:00 - INFO - Processing complete.";
                      [10]] |}
    = (Raise (ValueError msg),
       {| messages := Some [];
          log_file := [py "2024-05-18 09:00:00 - INFO - Processing complete.";
                       [10]] |}).
Proof.
  apply (store_log_file_to_database_unseparated (py "2024-05-18 10:00:00")
           {| messages := None;
              log_file := [py "2024-05-18 09:00:00 - INFO - Processing complete.";
                           [10]] |} [10]).
  - simpl. apply list_elem_of_further, list_elem_of_here.
  - reflexivity.
Defined.






